(** * hmux: middleware composition and route groups over a ServeMux

    A shallow embedding of the Go package [hmux] (mux.go, router.go and
    the file that declares [Group]) and the properties of its pattern
    joiner, its middleware fold and its scopes (the root [Mux] and the
    [Group]s derived from it).

    Layout:
    - [strings]: the functions of Go's [strings] package the code calls;
    - the pattern joiner ([splitMethodPath], [joinPattern]);
    - handlers, middleware, [wrap] and [Chain];
    - the heap of [Mux], [Group], [http.ServeMux] objects and of the backing
      arrays of middleware slices, with the methods of both scopes written
      in a state-and-panic monad;
    - the theorems. *)

From Stdlib Require Import Ascii String.
From stdpp Require Import base tactics option list strings.


(** ** Go's [strings] package, as far as the code uses it *)

Module strings.

(** [s[i:j]] on a Go string. *)
Definition slice (s : string) (i j : nat) : string :=
  String.substring i (j - i) s.

(** [strings.HasPrefix(s, prefix)]. *)
Definition HasPrefix (s prefix : string) : bool :=
  String.prefix prefix s.

(** [strings.HasSuffix(s, suffix)]:
    [len(s) >= len(suffix) && s[len(s)-len(suffix):] == suffix]. *)
Definition HasSuffix (s suffix : string) : bool :=
  (String.length suffix <=? String.length s)
  && String.eqb
       (slice s (String.length s - String.length suffix) (String.length s))
       suffix.

(** [strings.TrimSuffix(s, suffix)]: [s] without the trailing [suffix],
    or [s] itself when it does not end with it. *)
Definition TrimSuffix (s suffix : string) : string :=
  if HasSuffix s suffix
  then slice s 0 (String.length s - String.length suffix)
  else s.

(** [strings.Index(s, sep)]: position of the first instance of [sep]. *)
Definition Index (s sep : string) : option nat :=
  String.index 0 sep s.

(** [strings.Cut(s, sep)]: slices [s] around the first instance of [sep]. *)
Definition Cut (s sep : string) : string * string * bool :=
  match Index s sep with
  | Some i => (slice s 0 i, slice s (i + String.length sep) (String.length s), true)
  | None => (s, "", false)
  end.

End strings.

(** ** net/http method names *)

Module http.
Definition MethodGet := "GET".
Definition MethodHead := "HEAD".
Definition MethodPost := "POST".
Definition MethodPut := "PUT".
Definition MethodPatch := "PATCH".
Definition MethodDelete := "DELETE".
Definition MethodConnect := "CONNECT".
Definition MethodOptions := "OPTIONS".
Definition MethodTrace := "TRACE".
End http.

(** ** Pattern joiner (mux.go) *)

(** The [case] list of the [switch] in [splitMethodPath], in source order. *)
Definition recognized_methods : list string :=
  [ http.MethodGet; http.MethodPost; http.MethodPut; http.MethodDelete;
    http.MethodPatch; http.MethodHead; http.MethodOptions;
    http.MethodConnect; http.MethodTrace ].

Definition is_method (tok : string) : bool :=
  existsb (String.eqb tok) recognized_methods.

Definition splitMethodPath (pattern : string) : string * string :=
  let '(method, path, found) := strings.Cut pattern " " in
  if negb found then ("", pattern)
  else if is_method method then (method, path)
  else ("", pattern).

Definition joinPattern (prefix pattern : string) : string :=
  let '(method, path) := splitMethodPath pattern in
  let prefix := strings.TrimSuffix prefix "/" in
  let path := if negb (strings.HasPrefix path "/") then "/" +:+ path else path in
  let joined := prefix +:+ path in
  if negb (String.eqb method "") then method +:+ " " +:+ joined
  else joined.

(** *** The joiner in the words of its description

    Used only to compare with [joinPattern]. *)

(** No space anywhere in the string. *)
Fixpoint no_space (s : string) : bool :=
  match s with
  | EmptyString => true
  | String c s' => negb (Ascii.eqb c " "%char) && no_space s'
  end.

(** Remove one trailing ["/"], if there is one. *)
Fixpoint strip_one_slash (s : string) : string :=
  match s with
  | EmptyString => EmptyString
  | String c EmptyString => if Ascii.eqb c "/"%char then EmptyString else s
  | String c s' => String c (strip_one_slash s')
  end.

(** The last byte is ["/"]. *)
Fixpoint ends_with_slash (s : string) : bool :=
  match s with
  | EmptyString => false
  | String c EmptyString => Ascii.eqb c "/"%char
  | String _ s' => ends_with_slash s'
  end.

(** All bytes but the last. *)
Fixpoint drop_last (s : string) : string :=
  match s with
  | EmptyString => EmptyString
  | String c EmptyString => EmptyString
  | String c s' => String c (drop_last s')
  end.

Definition starts_with_slash (s : string) : bool :=
  match s with
  | String c _ => Ascii.eqb c "/"%char
  | EmptyString => false
  end.

Definition ensure_leading_slash (s : string) : string :=
  if starts_with_slash s then s else String "/"%char s.

Definition joinPattern_described (prefix pattern : string) : string :=
  let '(method, path) := splitMethodPath pattern in
  let joined := strip_one_slash prefix +:+ ensure_leading_slash path in
  match method with
  | EmptyString => joined
  | _ => method +:+ " " +:+ joined
  end.

(** ** Handlers and middleware *)

(** A computation that returns or panics with a message. *)
Inductive Res (A : Type) : Type :=
  | Ok (a : A)
  | Panic (msg : string).
Arguments Ok {A} a.
Arguments Panic {A} msg.

#[global] Instance Res_ret : MRet Res := fun A a => Ok a.
#[global] Instance Res_bind : MBind Res := fun A B f r =>
  match r with
  | Ok a => f a
  | Panic msg => Panic msg
  end.

(** What the tests observe of a request: the markers appended, in order, to
    a shared record. An [http.Handler] is modelled by what serving one
    request does to that record. *)
Definition Trace := list string.
Definition Handler := Trace -> Trace.

(** A value of type [func(http.Handler) http.Handler]: [None] is the nil
    function; calling a function may panic. *)
Definition Middleware := option (Handler -> Res Handler).

(** The run-time panic of calling a nil function value. *)
Definition nil_deref : string :=
  "runtime error: invalid memory address or nil pointer dereference".
Definition index_out_of_range : string :=
  "runtime error: index out of range".

(** [m(h)] for a function value [m]. *)
Definition call (m : Middleware) (h : Handler) : Res Handler :=
  match m with
  | Some f => f h
  | None => Panic nil_deref
  end.

(** [mw[i](h)] *)
Definition call_at (mw : list Middleware) (i : nat) (h : Handler) : Res Handler :=
  match mw !! i with
  | Some m => call m h
  | None => Panic index_out_of_range
  end.

(** The loop of [wrap]: [n] is [i + 1], so the body runs for
    [i = n - 1, ..., 0]. *)
Fixpoint wrap_loop (mw : list Middleware) (n : nat) (h : Handler) : Res Handler :=
  match n with
  | 0 => Ok h
  | S i => h' ← call_at mw i h; wrap_loop mw i h'
  end.

Definition wrap (h : Handler) (mw : list Middleware) : Res Handler :=
  wrap_loop mw (length mw) h.

(** The variadic parameter of [Chain] is held by the returned closure; it
    is a list value here (the callers in this package never write to it). *)
Definition Chain (mw : list Middleware) : Middleware :=
  Some (fun h => wrap h mw).

(** The onion written out for function values that may be nil:
    [m1 (m2 (... (mN h)))], a panic of an inner call ending the whole. *)
Fixpoint around (mw : list Middleware) (h : Handler) : Res Handler :=
  match mw with
  | [] => Ok h
  | m :: mw' => around mw' h ≫= call m
  end.

(** *** Middleware with pre and post logic

    [recordingMiddleware] of the tests: append [name:enter], call [next],
    append [name:exit]. *)
Definition enter (name : string) : string := name +:+ ":enter".
Definition exit (name : string) : string := name +:+ ":exit".

Definition recordingMiddleware (name : string) : Middleware :=
  Some (fun next => Ok (fun record => next (record ++ [enter name]) ++ [exit name])).

(** A middleware given by what it does before and after [next]. *)
Definition layer (pre post : Trace -> Trace) : Middleware :=
  Some (fun next => Ok (fun record => post (next (pre record)))).

(** The onion written out: [m1 (m2 (... (mN h)))]. *)
Fixpoint onion (fs : list (Handler -> Res Handler)) (h : Handler) : Res Handler :=
  match fs with
  | [] => Ok h
  | f :: fs' => h' ← onion fs' h; f h'
  end.

(** ** The heap: ServeMux, Mux and Group objects, backing arrays *)

(** Addresses are indices into the stores of the heap. *)
Abbreviation addr := nat (only parsing).

(** A slice header. The nil slice has no array, length 0 and capacity 0. *)
Record slice : Type := Slice {
  s_ptr : option addr;
  s_len : nat;
  s_cap : nat;
}.

Definition nil_slice : slice := Slice None 0 0.

(** [http.ServeMux] is outside the package. It is modelled by the
    registrations it has accepted, in order. *)
Definition ServeMux := list (string * Handler).

(** [type Mux struct { mux *http.ServeMux; middleware []func(...)... }] *)
Record Mux : Type := MkMux {
  m_mux : addr;
  m_middleware : slice;
}.

(** [type Group struct { mux *Mux; prefix string; middleware []func(...)... }] *)
Record Group : Type := MkGroup {
  g_mux : addr;
  g_prefix : string;
  g_middleware : slice;
}.

(** Objects are allocated at the end of their store, so an address is an
    index and the next free address is the length of the store. *)
Record Heap : Type := MkHeap {
  servemuxes : list ServeMux;
  muxes : list Mux;
  groups : list Group;
  arrays : list (list Middleware);
}.

Definition empty_heap : Heap := MkHeap [] [] [] [].

Definition set_servemuxes (f : list ServeMux -> list ServeMux) (σ : Heap) : Heap :=
  MkHeap (f (servemuxes σ)) (muxes σ) (groups σ) (arrays σ).
Definition set_muxes (f : list Mux -> list Mux) (σ : Heap) : Heap :=
  MkHeap (servemuxes σ) (f (muxes σ)) (groups σ) (arrays σ).
Definition set_groups (f : list Group -> list Group) (σ : Heap) : Heap :=
  MkHeap (servemuxes σ) (muxes σ) (f (groups σ)) (arrays σ).
Definition set_arrays (f : list (list Middleware) -> list (list Middleware)) (σ : Heap) : Heap :=
  MkHeap (servemuxes σ) (muxes σ) (groups σ) (f (arrays σ)).

(** The value of the [Router] interface: a pointer to a [Mux] or to a
    [Group]. *)
Inductive Router : Type :=
  | RMux (m : addr)
  | RGroup (g : addr).

#[global] Instance Router_eq_dec : EqDecision Router.
Proof. solve_decision. Defined.

(** *** State and panic *)

(** A call returns a value and a heap, or panics; the heap of a panic is
    the heap at the moment of the panic. *)
Inductive Outcome (A : Type) : Type :=
  | Done (a : A) (σ : Heap)
  | Panicked (msg : string) (σ : Heap).
Arguments Done {A} a σ.
Arguments Panicked {A} msg σ.

Definition M (A : Type) : Type := Heap -> Outcome A.

#[global] Instance M_ret : MRet M := fun A a σ => Done a σ.
#[global] Instance M_bind : MBind M := fun A B f c σ =>
  match c σ with
  | Done a σ' => f a σ'
  | Panicked msg σ' => Panicked msg σ'
  end.

Definition panic {A} (msg : string) : M A := fun σ => Panicked msg σ.

Definition lift {A} (r : Res A) : M A := fun σ =>
  match r with
  | Ok a => Done a σ
  | Panic msg => Panicked msg σ
  end.

Definition heap_of {A} (o : Outcome A) : Heap :=
  match o with
  | Done _ σ => σ
  | Panicked _ σ => σ
  end.

(** *** Loads and stores *)

Definition load_mux (m : addr) : M Mux := fun σ =>
  match muxes σ !! m with
  | Some o => Done o σ
  | None => Panicked nil_deref σ
  end.

Definition load_group (g : addr) : M Group := fun σ =>
  match groups σ !! g with
  | Some o => Done o σ
  | None => Panicked nil_deref σ
  end.

(** [m.middleware = s] *)
Definition store_mux_middleware (m : addr) (s : slice) : M unit := fun σ =>
  match muxes σ !! m with
  | Some o => Done tt (set_muxes <[m := MkMux (m_mux o) s]> σ)
  | None => Panicked nil_deref σ
  end.

(** [g.middleware = s] *)
Definition store_group_middleware (g : addr) (s : slice) : M unit := fun σ =>
  match groups σ !! g with
  | Some o => Done tt (set_groups <[g := MkGroup (g_mux o) (g_prefix o) s]> σ)
  | None => Panicked nil_deref σ
  end.

Definition alloc_servemux (sm : ServeMux) : M addr := fun σ =>
  Done (length (servemuxes σ)) (set_servemuxes (fun l => l ++ [sm]) σ).
Definition alloc_mux (o : Mux) : M addr := fun σ =>
  Done (length (muxes σ)) (set_muxes (fun l => l ++ [o]) σ).
Definition alloc_group (o : Group) : M addr := fun σ =>
  Done (length (groups σ)) (set_groups (fun l => l ++ [o]) σ).
Definition alloc_array (a : list Middleware) : M addr := fun σ =>
  Done (length (arrays σ)) (set_arrays (fun l => l ++ [a]) σ).

(** *** Slices *)

(** The elements [s[0], ..., s[len(s)-1]] in heap [σ]. *)
Definition elems (σ : Heap) (s : slice) : list Middleware :=
  match s_ptr s with
  | Some p => take (s_len s) (default [] (arrays σ !! p))
  | None => []
  end.

Definition read_slice (s : slice) : M (list Middleware) := fun σ =>
  Done (elems σ s) σ.

(** Overwrite the cells [off, ..., off + len(xs) - 1] of an array. *)
Definition overwrite (off : nat) (xs : list Middleware) (a : list Middleware)
  : list Middleware :=
  take off a ++ xs ++ drop (off + length xs) a.

Definition write_cells (p : addr) (off : nat) (xs : list Middleware) : M unit := fun σ =>
  Done tt (set_arrays (alter (overwrite off xs) p) σ).

(** [make([]func(http.Handler) http.Handler, n)]: a fresh array of [n] nil
    functions. *)
Definition make (n : nat) : M slice :=
  p ← alloc_array (replicate n None);
  mret (Slice (Some p) n n).

(** [copy(dst, src)]: copies [min(len(dst), len(src))] elements. *)
Definition copy (dst src : slice) : M nat :=
  xs ← read_slice src;
  let n := s_len dst `min` s_len src in
  match s_ptr dst with
  | Some p => write_cells p 0 (take n xs);; mret n
  | None => mret n
  end.

Section Runtime.

(** The capacity Go's runtime picks when [append] has to reallocate,
    from the old capacity and the length needed. The runtime is not part
    of the package; [append] below never uses less than what is needed. *)
Variable growcap : nat -> nat -> nat.

(** Why [http.ServeMux.Handle] would panic on a pattern, given what is
    registered already (invalid pattern, conflict), or [None] when it
    accepts. Decided by net/http, not by the package. *)
Variable reject : ServeMux -> string -> option string.

(** [append(s, xs...)]: in place when the capacity suffices, in a fresh
    array otherwise. *)
Definition append (s : slice) (xs : list Middleware) : M slice :=
  let n := s_len s + length xs in
  if n <=? s_cap s then
    match s_ptr s with
    | Some p => write_cells p (s_len s) xs;; mret (Slice (Some p) n (s_cap s))
    | None => mret s
    end
  else
    old ← read_slice s;
    let c := growcap (s_cap s) n `max` n in
    p ← alloc_array (old ++ xs ++ replicate (c - n) None);
    mret (Slice (Some p) n c).

(** The [Handle(pattern, handler)] method of [http.ServeMux]. *)
Definition ServeMux_Handle (sm : addr) (pattern : string) (handler : Handler)
  : M unit := fun σ =>
  match servemuxes σ !! sm with
  | None => Panicked nil_deref σ
  | Some regs =>
      match reject regs pattern with
      | Some msg => Panicked msg σ
      | None =>
          Done tt (set_servemuxes <[sm := regs ++ [(pattern, handler)]]> σ)
      end
  end.

Definition NewServeMux : M addr := alloc_servemux [].

(** *** mux.go *)

Definition New : M addr :=
  sm ← NewServeMux;
  alloc_mux (MkMux sm nil_slice).

Definition Mux_wrap (m : addr) (h : Handler) : M Handler :=
  o ← load_mux m;
  mw ← read_slice (m_middleware o);
  lift (wrap h mw).

Definition Mux_Handle (m : addr) (pattern : string) (handler : Handler) : M unit :=
  o ← load_mux m;
  h ← Mux_wrap m handler;
  ServeMux_Handle (m_mux o) pattern h.

Definition Mux_HandleFunc (m : addr) (pattern : string) (handler : Handler) : M unit :=
  Mux_Handle m pattern handler.

(** The validation loop of [Use]. *)
Fixpoint check_nil (mw : list Middleware) : M unit :=
  match mw with
  | [] => mret tt
  | fn :: rest =>
      match fn with
      | None => panic "hmux: nil middleware passed to Use"
      | Some _ => check_nil rest
      end
  end.

Definition Mux_Use (m : addr) (mw : list Middleware) : M unit :=
  check_nil mw;;
  o ← load_mux m;
  s ← append (m_middleware o) mw;
  store_mux_middleware m s.

Definition bad_prefix (prefix : string) : bool :=
  negb (String.eqb prefix "") && negb (strings.HasPrefix prefix "/").

Definition Mux_Group (m : addr) (prefix : string) : M Router :=
  if bad_prefix prefix then
    panic "hmux: group prefix must be empty or start with /"
  else
    o ← load_mux m;
    mw ← make (s_len (m_middleware o));
    copy mw (m_middleware o);;
    g ← alloc_group (MkGroup m prefix mw);
    mret (RGroup g).

(** *** The file of [Group] *)

Definition Group_Handle (g : addr) (pattern : string) (handler : Handler) : M unit :=
  o ← load_group g;
  let fullPattern := joinPattern (g_prefix o) pattern in
  m ← load_mux (g_mux o);
  mw ← read_slice (g_middleware o);
  h ← lift (wrap handler mw);
  ServeMux_Handle (m_mux m) fullPattern h.

Definition Group_HandleFunc (g : addr) (pattern : string) (handler : Handler) : M unit :=
  Group_Handle g pattern handler.

Definition Group_Use (g : addr) (mw : list Middleware) : M unit :=
  check_nil mw;;
  o ← load_group g;
  s ← append (g_middleware o) mw;
  store_group_middleware g s.

Definition Group_Group (g : addr) (prefix : string) : M Router :=
  if bad_prefix prefix then
    panic "hmux: group prefix must be empty or start with /"
  else
    o ← load_group g;
    mw ← make (s_len (g_middleware o));
    copy mw (g_middleware o);;
    g' ← alloc_group (MkGroup (g_mux o) (joinPattern (g_prefix o) prefix) mw);
    mret (RGroup g').

(** *** router.go: the methods through the interface *)

Definition Router_Handle (r : Router) : string -> Handler -> M unit :=
  match r with
  | RMux m => Mux_Handle m
  | RGroup g => Group_Handle g
  end.

Definition Router_HandleFunc (r : Router) : string -> Handler -> M unit :=
  match r with
  | RMux m => Mux_HandleFunc m
  | RGroup g => Group_HandleFunc g
  end.

Definition Router_Use (r : Router) : list Middleware -> M unit :=
  match r with
  | RMux m => Mux_Use m
  | RGroup g => Group_Use g
  end.

Definition Mux_With (m : addr) (mw : list Middleware) : M Router :=
  g ← Mux_Group m "";
  Router_Use g mw;;
  mret g.

Definition Group_With (g : addr) (mw : list Middleware) : M Router :=
  newG ← Group_Group g "";
  Router_Use newG mw;;
  mret newG.

Definition Router_Group (r : Router) : string -> M Router :=
  match r with
  | RMux m => Mux_Group m
  | RGroup g => Group_Group g
  end.

Definition Router_With (r : Router) : list Middleware -> M Router :=
  match r with
  | RMux m => Mux_With m
  | RGroup g => Group_With g
  end.

End Runtime.

(** ** Scopes in a heap *)

(** The middleware slice header a scope holds, if the scope exists. *)
Definition scope_slice (σ : Heap) (r : Router) : option slice :=
  match r with
  | RMux m => m_middleware <$> muxes σ !! m
  | RGroup g => g_middleware <$> groups σ !! g
  end.

Definition is_scope (σ : Heap) (r : Router) : Prop :=
  is_Some (scope_slice σ r).

(** The middleware list of a scope: the elements of its slice. *)
Definition middleware_of (σ : Heap) (r : Router) : list Middleware :=
  from_option (elems σ) [] (scope_slice σ r).

(** The [Mux] a scope registers into: itself for a [Mux], the [mux] field
    for a [Group]. *)
Definition root_of (σ : Heap) (r : Router) : option addr :=
  match r with
  | RMux m => (fun _ => m) <$> muxes σ !! m
  | RGroup g => g_mux <$> groups σ !! g
  end.

(** The pattern a scope hands to the ServeMux for [pattern]. *)
Definition full_pattern (σ : Heap) (r : Router) (pattern : string) : option string :=
  match r with
  | RMux m => (fun _ => pattern) <$> muxes σ !! m
  | RGroup g => (fun o => joinPattern (g_prefix o) pattern) <$> groups σ !! g
  end.

(** The prefix [Group(prefix)] gives the new group. *)
Definition child_prefix (σ : Heap) (r : Router) (prefix : string) : option string :=
  match r with
  | RMux m => (fun _ => prefix) <$> muxes σ !! m
  | RGroup g => (fun o => joinPattern (g_prefix o) prefix) <$> groups σ !! g
  end.

(** The fields of a group that never change. *)
Definition g_fixed (o : Group) : addr * string := (g_mux o, g_prefix o).

(** Some element is the nil function. *)
Definition has_nil (mw : list Middleware) : bool :=
  existsb (fun m => match m with None => true | Some _ => false end) mw.

(** The heap after [r.middleware = s]. *)
Definition with_slice (r : Router) (s : slice) (σ : Heap) : Heap :=
  match r with
  | RMux m => set_muxes (alter (fun o => MkMux (m_mux o) s) m) σ
  | RGroup g => set_groups (alter (fun o => MkGroup (g_mux o) (g_prefix o) s) g) σ
  end.

(** The heap after allocating a group and the array of its list. *)
Definition add_group (o : Group) (a : list Middleware) (σ : Heap) : Heap :=
  MkHeap (servemuxes σ) (muxes σ) (groups σ ++ [o]) (arrays σ ++ [a]).

(** A slice header points into the heap. *)
Definition slice_ok (σ : Heap) (s : slice) : Prop :=
  s_len s <= s_cap s /\
  match s_ptr s with
  | Some p => exists a, arrays σ !! p = Some a /\ s_cap s <= length a
  | None => s_cap s = 0
  end.

(** Heaps the package builds: headers point into the heap, no two scopes
    hold the same backing array, and the pointers between objects are
    valid. *)
Record wf (σ : Heap) : Prop := Wf {
  wf_slices : forall r s, scope_slice σ r = Some s -> slice_ok σ s;
  wf_separate : forall r1 r2 s1 s2 p,
    scope_slice σ r1 = Some s1 -> scope_slice σ r2 = Some s2 ->
    s_ptr s1 = Some p -> s_ptr s2 = Some p -> r1 = r2;
  wf_mux_sink :
    Forall (fun sm => sm < length (servemuxes σ)) (m_mux <$> muxes σ);
  wf_group_root :
    Forall (fun mp => mp.1 < length (muxes σ)) (g_fixed <$> groups σ);
}.

(** [σ'] is a later heap than [σ]: the objects of [σ] are still there with
    the same pointers and prefixes, and every ServeMux has kept its
    registrations, in place, possibly followed by new ones. *)
Record evolves (σ σ' : Heap) : Prop := Evolves {
  ev_muxes : (m_mux <$> muxes σ) `prefix_of` (m_mux <$> muxes σ');
  ev_groups : (g_fixed <$> groups σ) `prefix_of` (g_fixed <$> groups σ');
  ev_sinks : forall sm regs,
    servemuxes σ !! sm = Some regs ->
    exists more, servemuxes σ' !! sm = Some (regs ++ more);
}.

(** [σ'] is a later heap of the package in which every scope of [σ],
    except those in [used], has the middleware list it had in [σ]. *)
Definition frame (used : Router -> Prop) (σ σ' : Heap) : Prop :=
  wf σ' /\
  evolves σ σ' /\
  forall r, is_scope σ r -> ~ used r -> middleware_of σ' r = middleware_of σ r.

(** [g] is a scope created from [r]: it is new in [σ'], no scope of [σ]
    has changed, it registers into the root of [r] under prefix [pfx], and
    its list is the list of [r] followed by [mw]. *)
Definition child_of (σ : Heap) (r : Router) (pfx : string)
    (mw : list Middleware) (g : Router) (σ' : Heap) : Prop :=
  frame (fun _ => False) σ σ' /\
  ~ is_scope σ g /\
  is_scope σ' g /\
  middleware_of σ' g = middleware_of σ r ++ mw /\
  root_of σ' g = root_of σ r /\
  servemuxes σ' = servemuxes σ /\
  forall pattern, full_pattern σ' g pattern = Some (joinPattern pfx pattern).

(** ** Client programs: sequences of calls on the package *)

Inductive Call : Type :=
  | CallNew
  | CallHandle (r : Router) (pattern : string) (handler : Handler)
  | CallHandleFunc (r : Router) (pattern : string) (handler : Handler)
  | CallUse (r : Router) (mw : list Middleware)
  | CallGroup (r : Router) (prefix : string)
  | CallWith (r : Router) (mw : list Middleware).

(** The call is [r.Use(...)]. *)
Definition uses (r : Router) (c : Call) : Prop :=
  match c with
  | CallUse r' _ => r' = r
  | _ => False
  end.

(** The scope a call is made on. *)
Definition receiver (c : Call) : option Router :=
  match c with
  | CallNew => None
  | CallHandle r _ _ | CallHandleFunc r _ _ | CallUse r _
  | CallGroup r _ | CallWith r _ => Some r
  end.

(** One derivation step from a scope. *)
Inductive Step : Type :=
  | StepGroup (prefix : string)
  | StepWith (mw : list Middleware).

Definition step_prefix (st : Step) : string :=
  match st with
  | StepGroup prefix => prefix
  | StepWith _ => ""
  end.

Definition step_mw (st : Step) : list Middleware :=
  match st with
  | StepGroup _ => []
  | StepWith mw => mw
  end.

Section Programs.

Variable growcap : nat -> nat -> nat.
Variable reject : ServeMux -> string -> option string.

Definition exec (c : Call) : M unit :=
  match c with
  | CallNew => New;; mret tt
  | CallHandle r pattern handler => Router_Handle reject r pattern handler
  | CallHandleFunc r pattern handler => Router_HandleFunc reject r pattern handler
  | CallUse r mw => Router_Use growcap r mw
  | CallGroup r prefix => Router_Group r prefix;; mret tt
  | CallWith r mw => Router_With growcap r mw;; mret tt
  end.

Fixpoint run (cs : list Call) : M unit :=
  match cs with
  | [] => mret tt
  | c :: cs' => exec c;; run cs'
  end.

Definition step (r : Router) (st : Step) : M Router :=
  match st with
  | StepGroup prefix => Router_Group r prefix
  | StepWith mw => Router_With growcap r mw
  end.

(** The scope reached from [r] by a sequence of [Group] and [With]. *)
Fixpoint derive (sts : list Step) (r : Router) : M Router :=
  match sts with
  | [] => mret r
  | st :: sts' => r' ← step r st; derive sts' r'
  end.

End Programs.

(** ** The rest of mux.go: the accessor and the serving entry point *)

(** What [Group] accepts as a prefix: empty, or starting with a slash. *)
Definition valid_prefix (prefix : string) : bool :=
  String.eqb prefix "" || starts_with_slash prefix.

Definition load_servemux (sm : addr) : M ServeMux := fun σ =>
  match servemuxes σ !! sm with
  | Some regs => Done regs σ
  | None => Panicked nil_deref σ
  end.

(** [func (m *Mux) Handler() *http.ServeMux { return m.mux }] *)
Definition Mux_Handler (m : addr) : M addr :=
  o ← load_mux m;
  mret (m_mux o).

Section Serving.

(** Requests, and the handler [http.ServeMux] picks for a request among
    its registrations (or its own not-found handler). The matching engine
    is net/http's; it sees nothing but the registrations. *)
Variable Request : Type.
Variable dispatch : ServeMux -> Request -> Handler.

(** The [ServeHTTP] method of [http.ServeMux]: what serving [req] adds to
    the record. *)
Definition ServeMux_ServeHTTP (sm : addr) (req : Request) (record : Trace)
  : M Trace :=
  regs ← load_servemux sm;
  mret (dispatch regs req record).

(** [func (m *Mux) ServeHTTP(w, r) { m.mux.ServeHTTP(w, r) }] *)
Definition Mux_ServeHTTP (m : addr) (req : Request) (record : Trace)
  : M Trace :=
  o ← load_mux m;
  ServeMux_ServeHTTP (m_mux o) req record.

End Serving.


(** An engine for examples: the first registration whose pattern is the
    request, or a handler that records nothing. *)
Definition exact_match (regs : ServeMux) (req : string) : Handler :=
  match List.find (fun e => String.eqb (fst e) req) regs with
  | Some e => snd e
  | None => fun record => record
  end.

(** What a call returns, without the heap. *)
Definition result {A} (o : Outcome A) : Res A :=
  match o with
  | Done a _ => Ok a
  | Panicked msg _ => Panic msg
  end.

(** Beyond [wf]: every [Mux] has a ServeMux of its own, and every group
    has a prefix that [Group] accepts. *)
Definition tidy (σ : Heap) : Prop :=
  wf σ /\
  NoDup (m_mux <$> muxes σ) /\
  Forall (fun mp => valid_prefix mp.2 = true) (g_fixed <$> groups σ).

(** The prefix of a scope reached from a group with prefix [pfx]. *)
Fixpoint nest (pfx : string) (sts : list Step) : string :=
  match sts with
  | [] => pfx
  | st :: sts' => nest (joinPattern pfx (step_prefix st)) sts'
  end.

(** The prefix of a scope reached from the root [Mux]: the prefix of the
    first step as given, every later one joined to it. *)
Definition root_nest (sts : list Step) : string :=
  match sts with
  | [] => ""
  | st :: sts' => nest (step_prefix st) sts'
  end.

(** ** A runtime and a ServeMux to run examples with *)

(** Growth by doubling, as Go does for small slices. *)
Definition doubling (old need : nat) : nat := 2 * old.

(** A ServeMux that accepts every pattern. *)
Definition accept_all (regs : ServeMux) (pattern : string) : option string := None.

(** The patterns registered, per ServeMux, by a program that returned. *)
Definition registered_patterns {A} (o : Outcome A) : option (list (list string)) :=
  match o with
  | Done _ σ => Some (map (fun regs : ServeMux => map fst regs) (servemuxes σ))
  | Panicked _ _ => None
  end.

(** The handler of the tests: it records ["handler"]. *)
Definition test_handler : Handler := fun record => record ++ ["handler"].

(** The heap after [m := New(); m.Use(A)]: the root is [RMux 0]. *)
Definition example_heap : Heap :=
  heap_of (run doubling accept_all
             [CallNew; CallUse (RMux 0) [recordingMiddleware "A"]]
             empty_heap).

(** * Properties *)

(** ** Go strings *)

Section StringFacts.

Implicit Types s t tok rest : string.

Lemma string_app_nil_l s : "" +:+ s = s.
Proof. reflexivity. Qed.

Lemma string_app_cons c s t : String c s +:+ t = String c (s +:+ t).
Proof. reflexivity. Qed.

Ltac push_app := rewrite ?string_app_cons, ?string_app_nil_l.

Lemma string_app_assoc s t u : (s +:+ t) +:+ u = s +:+ t +:+ u.
Proof. induction s as [|c s IH]; push_app; [done | by rewrite IH]. Qed.

Lemma string_app_length s t :
  String.length (s +:+ t) = String.length s + String.length t.
Proof. induction s as [|c s IH]; push_app; simpl; [done | by rewrite IH]. Qed.

Lemma substring_all s : String.substring 0 (String.length s) s = s.
Proof. induction s as [|c s IH]; simpl; [done | by rewrite IH]. Qed.

Lemma substring_app_l s t : String.substring 0 (String.length s) (s +:+ t) = s.
Proof.
  induction s as [|c s IH]; push_app; simpl.
  - by destruct t.
  - by rewrite IH.
Qed.

Lemma substring_app_r s t n :
  String.substring (String.length s) n (s +:+ t) = String.substring 0 n t.
Proof. induction s as [|c s IH]; push_app; simpl; [done | by rewrite IH]. Qed.

Lemma prefix_one a c s :
  String.prefix (String a EmptyString) (String c s) = Ascii.eqb c a.
Proof.
  change (String.prefix (String a EmptyString) (String c s))
    with (if ascii_dec a c then String.prefix EmptyString s else false).
  destruct (ascii_dec a c) as [<-|Hne].
  - rewrite Ascii.eqb_refl. by destruct s.
  - symmetry. apply Ascii.eqb_neq. congruence.
Qed.

Lemma index_step sep c s :
  String.index 0 sep (String c s) =
    if String.prefix sep (String c s) then Some 0
    else match String.index 0 sep s with
         | Some n => Some (S n)
         | None => None
         end.
Proof. reflexivity. Qed.

Lemma HasPrefix_slash s : strings.HasPrefix s "/" = starts_with_slash s.
Proof.
  destruct s as [|c s]; [done|].
  unfold strings.HasPrefix. apply prefix_one.
Qed.

Lemma strip_one_slash_cases s :
  strip_one_slash s = if ends_with_slash s then drop_last s else s.
Proof.
  induction s as [|c s IH]; [done|].
  destruct s as [|d s]; [simpl; by destruct (Ascii.eqb c "/")|].
  change (strip_one_slash (String c (String d s)))
    with (String c (strip_one_slash (String d s))).
  change (ends_with_slash (String c (String d s)))
    with (ends_with_slash (String d s)).
  change (drop_last (String c (String d s)))
    with (String c (drop_last (String d s))).
  rewrite IH. by destruct (ends_with_slash (String d s)).
Qed.

Lemma HasSuffix_slash s : strings.HasSuffix s "/" = ends_with_slash s.
Proof.
  unfold strings.HasSuffix, strings.slice.
  induction s as [|c s IH]; [done|].
  destruct s as [|d s].
  - simpl. destruct (Ascii.eqb c "/"); done.
  - change (ends_with_slash (String c (String d s)))
      with (ends_with_slash (String d s)).
    rewrite <- IH. simpl. rewrite !Nat.sub_0_r.
    replace (S (String.length s) - String.length s) with 1 by lia.
    replace (String.length s - (String.length s - 0)) with 0 by lia.
    destruct (String.length s) eqn:Hlen; simpl.
    + by destruct s.
    + replace (S n - n) with 1 by lia. done.
Qed.

Lemma slice_drop_last s :
  strings.slice s 0 (String.length s - 1) = drop_last s.
Proof.
  unfold strings.slice. rewrite Nat.sub_0_r.
  induction s as [|c s IH]; [done|].
  destruct s as [|d s]; [done|].
  change (drop_last (String c (String d s)))
    with (String c (drop_last (String d s))).
  rewrite <- IH. simpl. by rewrite !Nat.sub_0_r.
Qed.

Lemma TrimSuffix_slash s : strings.TrimSuffix s "/" = strip_one_slash s.
Proof.
  unfold strings.TrimSuffix.
  rewrite HasSuffix_slash, strip_one_slash_cases.
  destruct (ends_with_slash s); [|done].
  apply slice_drop_last.
Qed.

(** Stripping undoes exactly one appended slash. *)
Lemma strip_one_slash_app s : strip_one_slash (s +:+ "/") = s.
Proof.
  induction s as [|c s IH]; [done|].
  push_app. cbn [strip_one_slash]. rewrite IH.
  destruct s; [done|]. by push_app.
Qed.

Lemma Index_no_space s : no_space s = true -> strings.Index s " " = None.
Proof.
  unfold strings.Index.
  induction s as [|c s IH]; [done|].
  cbn [no_space]. intros [Hc Hs]%andb_prop.
  rewrite index_step, prefix_one, IH by done.
  by destruct (Ascii.eqb c " ").
Qed.

Lemma Index_first_space tok rest :
  no_space tok = true ->
  strings.Index (tok +:+ " " +:+ rest) " " = Some (String.length tok).
Proof.
  unfold strings.Index.
  induction tok as [|c tok IH].
  - intros _. change ("" +:+ " " +:+ rest) with (String " " rest).
    by rewrite index_step, prefix_one.
  - cbn [no_space]. intros [Hc Hs]%andb_prop.
    change (String c tok +:+ " " +:+ rest)
      with (String c (tok +:+ " " +:+ rest)).
    rewrite index_step, prefix_one, IH by done.
    by destruct (Ascii.eqb c " ").
Qed.

Lemma Cut_no_space s :
  no_space s = true -> strings.Cut s " " = (s, "", false).
Proof. intros H. unfold strings.Cut. by rewrite Index_no_space. Qed.

Lemma Cut_first_space tok rest :
  no_space tok = true ->
  strings.Cut (tok +:+ " " +:+ rest) " " = (tok, rest, true).
Proof.
  intros H. unfold strings.Cut, strings.slice.
  rewrite Index_first_space by done.
  rewrite Nat.sub_0_r, substring_app_l.
  do 2 f_equal.
  replace (String.length tok + String.length " ")
    with (String.length (tok +:+ " ")) by apply string_app_length.
  rewrite <- (string_app_assoc tok " " rest).
  rewrite substring_app_r, string_app_length.
  replace (String.length (tok +:+ " ") + String.length rest
           - String.length (tok +:+ " ")) with (String.length rest) by lia.
  apply substring_all.
Qed.

(** Every string has no space, or splits at its first space. *)
Lemma first_space_split s :
  no_space s = true \/
  exists tok rest, s = tok +:+ " " +:+ rest /\ no_space tok = true.
Proof.
  induction s as [|c s IH]; [by left|].
  destruct (Ascii.eqb c " ") eqn:Hc.
  - right. exists "", s. apply Ascii.eqb_eq in Hc as ->. done.
  - destruct IH as [IH|(tok & rest & -> & Htok)].
    + left. simpl. by rewrite Hc, IH.
    + right. exists (String c tok), rest. push_app. simpl.
      by rewrite Hc, Htok.
Qed.

End StringFacts.

(** ** The pattern joiner *)

Lemma splitMethodPath_no_space s :
  no_space s = true -> splitMethodPath s = ("", s).
Proof. intros H. unfold splitMethodPath. by rewrite Cut_no_space. Qed.

Lemma splitMethodPath_first_space tok rest :
  no_space tok = true ->
  splitMethodPath (tok +:+ " " +:+ rest) =
    if is_method tok then (tok, rest) else ("", tok +:+ " " +:+ rest).
Proof. intros H. unfold splitMethodPath. by rewrite Cut_first_space. Qed.

Lemma is_method_iff tok :
  is_method tok = true <->
  In tok ["GET"; "POST"; "PUT"; "DELETE"; "PATCH"; "HEAD"; "OPTIONS";
          "CONNECT"; "TRACE"].
Proof.
  unfold is_method. rewrite existsb_exists. split.
  - intros (m & Hm & ->%String.eqb_eq). exact Hm.
  - intros H. exists tok. split; [exact H | apply String.eqb_refl].
Qed.

(** A recognized method is never empty and never starts with a slash. *)
Lemma is_method_shape m :
  is_method m = true -> m <> "" /\ starts_with_slash m = false.
Proof.
  rewrite is_method_iff. simpl.
  intros H. repeat destruct H as [<-|H]; try done.
Qed.

(** What [splitMethodPath] returns is the input, cut at the method. *)
Lemma splitMethodPath_rebuild pattern :
  let '(method, path) := splitMethodPath pattern in
  (method = "" /\ path = pattern) \/
  (is_method method = true /\ pattern = method +:+ " " +:+ path).
Proof.
  destruct (first_space_split pattern) as [H|(tok & rest & -> & H)].
  - rewrite splitMethodPath_no_space by done. by left.
  - rewrite splitMethodPath_first_space by done.
    destruct (is_method tok) eqn:Hm; [by right | by left].
Qed.

Lemma joinPattern_as_described prefix pattern :
  joinPattern prefix pattern = joinPattern_described prefix pattern.
Proof.
  unfold joinPattern, joinPattern_described.
  destruct (splitMethodPath pattern) as [method path].
  rewrite TrimSuffix_slash, HasPrefix_slash.
  unfold ensure_leading_slash.
  destruct (starts_with_slash path), method; reflexivity.
Qed.

(** C5: [joinPattern] splits the pattern with [splitMethodPath], strips one
    trailing slash from the prefix (and only one), puts a slash in front of
    a path that has none, concatenates, and puts the method and a space
    back in front when one was split off. It is a total function (every
    pair of strings has a result), and the five edge cases evaluate as
    listed. *)
Theorem joinPattern_spec :
  (forall prefix pattern,
     joinPattern prefix pattern = joinPattern_described prefix pattern) /\
  (forall q, strip_one_slash (q +:+ "/") = q) /\
  (forall q, ends_with_slash q = false -> strip_one_slash q = q) /\
  joinPattern "/" "/test" = "/test" /\
  joinPattern "" "/users" = "/users" /\
  joinPattern "/api/" "/users" = "/api/users" /\
  joinPattern "/api" "GET /users" = "GET /api/users" /\
  joinPattern "/api" "users" = "/api/users" /\
  joinPattern "/api//" "/users" = "/api//users".
Proof.
  split; [exact joinPattern_as_described|].
  split; [exact strip_one_slash_app|].
  split.
  { intros q Hq. by rewrite strip_one_slash_cases, Hq. }
  repeat split; reflexivity.
Qed.

Lemma joinPattern_spec_witness :
  ends_with_slash "/api" = false /\ strip_one_slash "/api" = "/api".
Proof.
  split; [reflexivity|].
  exact (proj1 (proj2 (proj2 joinPattern_spec)) "/api" eq_refl).
Defined.

(** C6: [splitMethodPath] cuts at the first space. Without a space the
    method is empty and the path is the whole string; when the token before
    the first space is one of the nine method names (exact match) the token
    and the remainder are returned; for any other token the method is empty
    and the path is the whole input, token and space included. *)
Theorem splitMethodPath_spec (tok rest : string) :
  no_space tok = true ->
  splitMethodPath tok = ("", tok) /\
  splitMethodPath (tok +:+ " " +:+ rest) =
    (if is_method tok then (tok, rest) else ("", tok +:+ " " +:+ rest)) /\
  (is_method tok = true <->
   In tok ["GET"; "POST"; "PUT"; "DELETE"; "PATCH"; "HEAD"; "OPTIONS";
           "CONNECT"; "TRACE"]) /\
  splitMethodPath "GET /x" = ("GET", "/x") /\
  splitMethodPath "/x" = ("", "/x") /\
  splitMethodPath "UNKNOWN /x" = ("", "UNKNOWN /x") /\
  splitMethodPath "get /x" = ("", "get /x").
Proof.
  intros H.
  split; [by apply splitMethodPath_no_space|].
  split; [by apply splitMethodPath_first_space|].
  split; [apply is_method_iff|].
  repeat split; reflexivity.
Qed.

Lemma splitMethodPath_spec_witness :
  no_space "DELETE" = true /\
  splitMethodPath "DELETE /users/{id}" = ("DELETE", "/users/{id}").
Proof.
  split; [reflexivity|].
  exact (proj1 (proj2 (splitMethodPath_spec "DELETE" "/users/{id}" eq_refl))).
Defined.

(** ** The middleware fold *)

Section WrapFacts.

Implicit Types (h : Handler) (m : Middleware) (mw : list Middleware).

Lemma Res_bind_assoc {A B C} (r : Res A) (f : A -> Res B) (g : B -> Res C) :
  (r ≫= f) ≫= g = r ≫= (fun a => f a ≫= g).
Proof. by destruct r. Qed.

Lemma Res_bind_ret {A} (r : Res A) : r ≫= Ok = r.
Proof. by destruct r. Qed.

Lemma Res_bind_ext {A B} (r : Res A) (f g : A -> Res B) :
  (forall a, f a = g a) -> r ≫= f = r ≫= g.
Proof. intros H. destruct r; simpl; [apply H | done]. Qed.

(** The loop only reads the cells below its counter. *)
Lemma wrap_loop_app mw rest n h :
  n <= length mw -> wrap_loop (mw ++ rest) n h = wrap_loop mw n h.
Proof.
  revert h. induction n as [|i IH]; intros h Hn; [done|].
  simpl. unfold call_at. rewrite lookup_app_l by lia.
  apply Res_bind_ext. intros h'. apply IH. lia.
Qed.

(** The first iteration calls the last element. *)
Lemma wrap_snoc h mw m :
  wrap h (mw ++ [m]) = call m h ≫= fun h' => wrap h' mw.
Proof.
  unfold wrap. rewrite length_app, Nat.add_1_r. simpl.
  unfold call_at at 1. rewrite list_lookup_middle by done.
  apply Res_bind_ext. intros h'. by apply wrap_loop_app.
Qed.

Lemma wrap_nil h : wrap h [] = Ok h.
Proof. reflexivity. Qed.

Lemma wrap_app h mw1 mw2 :
  wrap h (mw1 ++ mw2) = wrap h mw2 ≫= fun h' => wrap h' mw1.
Proof.
  revert h. induction mw2 as [|m mw2 IH] using rev_ind; intros h.
  - by rewrite app_nil_r.
  - rewrite app_assoc, !wrap_snoc, Res_bind_assoc.
    apply Res_bind_ext. intros h'. apply IH.
Qed.

Lemma wrap_singleton h m : wrap h [m] = call m h.
Proof. change [m] with ([] ++ [m]). rewrite wrap_snoc. apply Res_bind_ret. Qed.

(** The head of the list is applied last: it is the outermost layer. *)
Lemma wrap_cons h m mw :
  wrap h (m :: mw) = wrap h mw ≫= call m.
Proof.
  change (m :: mw) with ([m] ++ mw). rewrite wrap_app.
  apply Res_bind_ext. intros h'. apply wrap_singleton.
Qed.

Lemma wrap_onion h (fs : list (Handler -> Res Handler)) :
  wrap h (Some <$> fs) = onion fs h.
Proof.
  induction fs as [|f fs IH]; [done|].
  rewrite fmap_cons, wrap_cons, IH. done.
Qed.

Lemma wrap_layers h (ls : list ((Trace -> Trace) * (Trace -> Trace))) :
  exists h',
    wrap h ((fun l => layer l.1 l.2) <$> ls) = Ok h' /\
    forall r, h' r = foldr (fun l acc => l.2 acc)
                           (h (foldl (fun acc l => l.1 acc) r ls)) ls.
Proof.
  induction ls as [|[pre post] ls (h1 & Hw & Hh1)].
  - by exists h.
  - rewrite fmap_cons, wrap_cons, Hw. simpl.
    eexists. split; [reflexivity|].
    intros r. simpl. by rewrite Hh1.
Qed.

Lemma wrap_recording h (names : list string) :
  exists h',
    wrap h (recordingMiddleware <$> names) = Ok h' /\
    forall r, h' r = h (r ++ (enter <$> names)) ++ (exit <$> reverse names).
Proof.
  induction names as [|n names (h1 & Hw & Hh1)].
  - exists h. split; [done|]. intros r. simpl. by rewrite !app_nil_r.
  - rewrite fmap_cons, wrap_cons, Hw. simpl.
    eexists. split; [reflexivity|].
    intros r. simpl. rewrite Hh1, reverse_cons, fmap_app, <- !app_assoc.
    done.
Qed.

Lemma wrap_Chain_inside h mw mw1 mw2 :
  wrap h (mw1 ++ Chain mw :: mw2) = wrap h (mw1 ++ mw ++ mw2).
Proof.
  rewrite !wrap_app, wrap_cons. reflexivity.
Qed.

Lemma wrap_around h mw : wrap h mw = around mw h.
Proof.
  induction mw as [|m mw IH]; [done|].
  rewrite wrap_cons, IH. done.
Qed.

End WrapFacts.

(** C1: [wrap] runs its loop from the last element to the first, so the
    first element of the list is the outermost layer. For middleware with
    pre and post logic the composed handler runs the pre logic of
    m1, ..., mN in that order, then the handler, then the post logic of
    mN, ..., m1; with recording middleware the record reads
    [m1:enter, ..., mN:enter], what the handler adds, [mN:exit, ...,
    m1:exit]. On the empty list the handler comes back unchanged. *)
Theorem wrap_onion_order :
  (forall h, wrap h [] = Ok h) /\
  (forall h mw m, wrap h (mw ++ [m]) = call m h ≫= fun h' => wrap h' mw) /\
  (forall h fs, wrap h (Some <$> fs) = onion fs h) /\
  (forall h (ls : list ((Trace -> Trace) * (Trace -> Trace))),
     exists h',
       wrap h ((fun l => layer l.1 l.2) <$> ls) = Ok h' /\
       forall r, h' r = foldr (fun l acc => l.2 acc)
                              (h (foldl (fun acc l => l.1 acc) r ls)) ls) /\
  (forall h names,
     exists h',
       wrap h (recordingMiddleware <$> names) = Ok h' /\
       forall r, h' r = h (r ++ (enter <$> names)) ++ (exit <$> reverse names)) /\
  (exists h',
     wrap (fun r => r ++ ["handler"])
          [recordingMiddleware "A"; recordingMiddleware "B";
           recordingMiddleware "C"] = Ok h' /\
     h' [] = ["A:enter"; "B:enter"; "C:enter"; "handler";
              "C:exit"; "B:exit"; "A:exit"]).
Proof.
  split; [exact wrap_nil|].
  split; [exact wrap_snoc|].
  split; [exact wrap_onion|].
  split; [exact wrap_layers|].
  split; [exact wrap_recording|].
  eexists. split; reflexivity.
Qed.

(** C3: the middleware returned by [Chain], applied to a handler, is
    [wrap] of that handler with the same list: same result, same panic,
    and therefore the same onion order. A chain used as one element of a
    middleware list behaves as its elements spliced in at that place. *)
Theorem Chain_is_wrap (mw : list Middleware) (h : Handler) :
  call (Chain mw) h = wrap h mw /\
  wrap h [Chain mw] = wrap h mw /\
  (forall mw1 mw2,
     wrap h (mw1 ++ Chain mw :: mw2) = wrap h (mw1 ++ mw ++ mw2)) /\
  (forall names,
     exists h',
       call (Chain (recordingMiddleware <$> names)) h = Ok h' /\
       forall r, h' r = h (r ++ (enter <$> names)) ++ (exit <$> reverse names)).
Proof.
  split; [reflexivity|].
  split; [apply wrap_singleton|].
  split; [intros; apply wrap_Chain_inside|].
  intros names. apply wrap_recording.
Qed.

(** ** Slices and backing arrays *)

Section SliceFacts.

Variable growcap : nat -> nat -> nat.

Implicit Types (σ : Heap) (s t : slice) (xs : list Middleware).

Lemma elems_arrays_eq σ σ' t :
  (forall p, s_ptr t = Some p -> arrays σ' !! p = arrays σ !! p) ->
  elems σ' t = elems σ t.
Proof.
  intros H. unfold elems. destruct (s_ptr t) as [p|]; [|done].
  by rewrite H.
Qed.

Lemma slice_ok_arrays_eq σ σ' t :
  (forall p, s_ptr t = Some p -> arrays σ' !! p = arrays σ !! p) ->
  slice_ok σ t -> slice_ok σ' t.
Proof.
  intros H [Hlen Hptr]. split; [done|].
  destruct (s_ptr t) as [p|]; [|done].
  by rewrite H.
Qed.

Lemma elems_length σ s : slice_ok σ s -> length (elems σ s) = s_len s.
Proof.
  intros [Hlen Hptr]. unfold elems.
  destruct (s_ptr s) as [p|].
  - destruct Hptr as (a & -> & Hcap). simpl. rewrite length_take. lia.
  - simpl. lia.
Qed.

Lemma overwrite_length off xs a :
  off + length xs <= length a -> length (overwrite off xs a) = length a.
Proof.
  intros H. unfold overwrite.
  rewrite !length_app, length_take, length_drop. lia.
Qed.

Lemma overwrite_take off xs a :
  off <= length a -> take (off + length xs) (overwrite off xs a) = take off a ++ xs.
Proof.
  intros H. unfold overwrite.
  rewrite take_app_add' by (rewrite length_take; lia).
  by rewrite take_app_length.
Qed.

(** [append] returns a slice with the old elements followed by the new
    ones; it writes to the array of [s] or to a fresh one, so slices on
    other arrays read the same as before. *)
Lemma append_spec σ s xs :
  slice_ok σ s ->
  exists s' σ',
    append growcap s xs σ = Done s' σ' /\
    servemuxes σ' = servemuxes σ /\
    muxes σ' = muxes σ /\
    groups σ' = groups σ /\
    elems σ' s' = elems σ s ++ xs /\
    slice_ok σ' s' /\
    (s_ptr s' = s_ptr s \/ s_ptr s' = Some (length (arrays σ))) /\
    (forall t,
       slice_ok σ t ->
       (forall p, s_ptr t = Some p -> s_ptr s <> Some p) ->
       slice_ok σ' t /\ elems σ' t = elems σ t).
Proof.
  intros Hok. pose proof (elems_length _ _ Hok) as Hlen.
  destruct Hok as [Hle Hptr].
  unfold append.
  destruct (s_len s + length xs <=? s_cap s) eqn:Hfit.
  - apply Nat.leb_le in Hfit.
    destruct (s_ptr s) as [p|] eqn:Hp.
    + destruct Hptr as (a & Ha & Hcap).
      eexists _, _. split; [reflexivity|].
      assert (Hother : forall t q,
                 s_ptr t = Some q ->
                 (forall p0, s_ptr t = Some p0 -> Some p <> Some p0) ->
                 alter (overwrite (s_len s) xs) p (arrays σ) !! q
                 = arrays σ !! q).
      { intros t q Hq Hne. apply list_lookup_alter_ne.
        intros ->. by eapply Hne. }
      split_and!; try done.
      * unfold elems. simpl. rewrite Hp.
        rewrite list_lookup_alter_eq, Ha. simpl.
        apply overwrite_take. lia.
      * split; simpl; [lia|].
        rewrite list_lookup_alter_eq, Ha. simpl.
        eexists. split; [done|]. rewrite overwrite_length; lia.
      * by left.
      * intros t Ht Hne. split.
        -- eapply slice_ok_arrays_eq; [|done].
           intros q Hq. simpl. by eapply Hother.
        -- apply elems_arrays_eq.
           intros q Hq. simpl. by eapply Hother.
    + assert (xs = []) as -> by (apply nil_length_inv; lia).
      exists s, σ. split; [reflexivity|].
      split_and!; try done.
      * by rewrite app_nil_r.
      * split; [done|]. by rewrite Hp.
      * by left.
  - apply Nat.leb_gt in Hfit.
    eexists _, _. split; [reflexivity|].
    assert (Hfresh : forall t q new,
               slice_ok σ t -> s_ptr t = Some q ->
               (arrays σ ++ [new]) !! q = arrays σ !! q).
    { intros t q new [_ Ht] Hq. rewrite Hq in Ht.
      destruct Ht as (a & Ha & _).
      apply lookup_app_l. by eapply lookup_lt_Some. }
    split_and!; try done.
    * unfold elems at 1. simpl.
      rewrite list_lookup_middle by done. simpl.
      rewrite app_assoc.
      apply take_app_length'. rewrite length_app. lia.
    * split; simpl; [lia|].
      rewrite list_lookup_middle by done.
      eexists. split; [done|].
      rewrite !length_app, length_replicate. lia.
    * by right.
    * intros t Ht Hne. split.
      -- eapply slice_ok_arrays_eq; [|done].
         intros q Hq. by eapply Hfresh.
      -- apply elems_arrays_eq. intros q Hq. by eapply Hfresh.
Qed.

(** The two statements of [Group] that build the new list: [make] gives
    a fresh array, and [copy] fills it with the elements of [src]. *)
Lemma make_fresh n σ :
  make n σ =
    Done (Slice (Some (length (arrays σ))) n n)
         (set_arrays (fun l => l ++ [replicate n None]) σ).
Proof. reflexivity. Qed.

Lemma copy_fresh σ src :
  slice_ok σ src ->
  copy (Slice (Some (length (arrays σ))) (s_len src) (s_len src)) src
       (set_arrays (fun l => l ++ [replicate (s_len src) None]) σ) =
    Done (s_len src) (set_arrays (fun l => l ++ [elems σ src]) σ).
Proof.
  intros Hok. pose proof (elems_length _ _ Hok) as Hlen.
  unfold copy, mbind, M_bind, read_slice, write_cells, mret, M_ret. simpl.
  rewrite (elems_arrays_eq σ (set_arrays _ σ) src).
  2:{ intros p Hp. simpl.
      destruct Hok as [_ Hptr]. rewrite Hp in Hptr.
      destruct Hptr as (a & Ha & _).
      apply lookup_app_l. by eapply lookup_lt_Some. }
  rewrite Nat.min_id. f_equal. unfold set_arrays. simpl. f_equal.
  rewrite alter_app_r_alt by done. rewrite Nat.sub_diag. simpl.
  f_equal. f_equal. unfold overwrite. simpl.
  rewrite take_ge by lia.
  rewrite drop_ge by (rewrite length_replicate; lia).
  by rewrite app_nil_r.
Qed.

End SliceFacts.

(** ** Scopes *)

Section ScopeFacts.

Variable growcap : nat -> nat -> nat.
Variable reject : ServeMux -> string -> option string.

Implicit Types (σ : Heap) (r : Router) (s : slice) (mw : list Middleware).

Lemma check_nil_spec mw σ :
  check_nil mw σ =
    if has_nil mw then Panicked "hmux: nil middleware passed to Use" σ
    else Done tt σ.
Proof.
  induction mw as [|[f|] mw IH]; simpl; [done| |done].
  exact IH.
Qed.

Lemma scope_slice_with_slice r s σ r' :
  scope_slice (with_slice r s σ) r' =
    if decide (r' = r) then (fun _ => s) <$> scope_slice σ r
    else scope_slice σ r'.
Proof.
  destruct (decide (r' = r)) as [->|Hne].
  - destruct r as [m|g]; simpl; rewrite list_lookup_alter_eq.
    + by destruct (muxes σ !! m).
    + by destruct (groups σ !! g).
  - destruct r as [m|g], r' as [m'|g']; simpl; try done;
      rewrite list_lookup_alter_ne by congruence; done.
Qed.

Lemma with_slice_arrays r s σ : arrays (with_slice r s σ) = arrays σ.
Proof. by destruct r. Qed.

Lemma with_slice_servemuxes r s σ :
  servemuxes (with_slice r s σ) = servemuxes σ.
Proof. by destruct r. Qed.

Lemma with_slice_muxes r s σ :
  m_mux <$> muxes (with_slice r s σ) = m_mux <$> muxes σ.
Proof.
  destruct r as [m|g]; [|done]. simpl.
  rewrite (list_fmap_alter _ _ id).
  - by rewrite list_alter_id.
  - by apply Forall_forall.
Qed.

Lemma with_slice_groups r s σ :
  g_fixed <$> groups (with_slice r s σ) = g_fixed <$> groups σ.
Proof.
  destruct r as [m|g]; [done|]. simpl.
  rewrite (list_fmap_alter _ _ id).
  - by rewrite list_alter_id.
  - by apply Forall_forall.
Qed.

Lemma muxes_length σ : length (muxes σ) = length (m_mux <$> muxes σ).
Proof. by rewrite length_fmap. Qed.

(** What a scope is made of, read off the fixed fields. *)
Lemma root_of_fixed σ r :
  root_of σ r =
    match r with
    | RMux m => (fun _ => m) <$> (m_mux <$> muxes σ) !! m
    | RGroup g => fst <$> (g_fixed <$> groups σ) !! g
    end.
Proof.
  destruct r as [m|g]; simpl; rewrite list_lookup_fmap.
  - by destruct (muxes σ !! m).
  - by destruct (groups σ !! g).
Qed.

Lemma full_pattern_fixed σ r pattern :
  full_pattern σ r pattern =
    match r with
    | RMux m => (fun _ => pattern) <$> (m_mux <$> muxes σ) !! m
    | RGroup g =>
        (fun mp => joinPattern mp.2 pattern) <$> (g_fixed <$> groups σ) !! g
    end.
Proof.
  destruct r as [m|g]; simpl; rewrite list_lookup_fmap.
  - by destruct (muxes σ !! m).
  - by destruct (groups σ !! g).
Qed.

Lemma is_scope_fixed σ r :
  is_scope σ r <->
    match r with
    | RMux m => m < length (m_mux <$> muxes σ)
    | RGroup g => g < length (g_fixed <$> groups σ)
    end.
Proof.
  unfold is_scope. destruct r as [m|g]; simpl;
    rewrite fmap_is_Some, lookup_lt_is_Some, length_fmap; done.
Qed.

#[global] Instance evolves_refl : Reflexive evolves.
Proof. intros σ. split; [done|done|]. intros sm regs H. exists []. by rewrite app_nil_r. Qed.

#[global] Instance evolves_trans : Transitive evolves.
Proof.
  intros σ1 σ2 σ3 [Hm1 Hg1 Hs1] [Hm2 Hg2 Hs2]. split.
  - by etrans.
  - by etrans.
  - intros sm regs H. destruct (Hs1 _ _ H) as [more1 H1].
    destruct (Hs2 _ _ H1) as [more2 H2].
    exists (more1 ++ more2). by rewrite app_assoc.
Qed.

(** Scopes stay scopes, with the same root and the same prefix. *)
Lemma evolves_scope σ σ' r :
  evolves σ σ' -> is_scope σ r ->
  is_scope σ' r /\
  root_of σ' r = root_of σ r /\
  forall pattern, full_pattern σ' r pattern = full_pattern σ r pattern.
Proof.
  intros [Hm Hg _] Hr.
  rewrite !is_scope_fixed in *. rewrite !root_of_fixed.
  split_and!.
  - destruct r; (eapply Nat.lt_le_trans; [done|]); by apply prefix_length.
  - destruct r as [m|g].
    + by rewrite <- (prefix_lookup_lt _ _ _ Hr Hm).
    + by rewrite <- (prefix_lookup_lt _ _ _ Hr Hg).
  - intros pattern. rewrite !full_pattern_fixed. destruct r as [m|g].
    + by rewrite <- (prefix_lookup_lt _ _ _ Hr Hm).
    + by rewrite <- (prefix_lookup_lt _ _ _ Hr Hg).
Qed.

Lemma scope_slice_same σ σ' r :
  muxes σ' = muxes σ -> groups σ' = groups σ ->
  scope_slice σ' r = scope_slice σ r.
Proof. intros Hm Hg. destruct r; simpl; by rewrite ?Hm, ?Hg. Qed.

Lemma insert_as_alter {A} (f : A -> A) (l : list A) i o :
  l !! i = Some o -> <[i := f o]> l = alter f i l.
Proof.
  intros Ho. apply list_eq. intros j.
  destruct (decide (i = j)) as [<-|Hne].
  - rewrite list_lookup_insert_eq by (by eapply lookup_lt_Some).
    by rewrite list_lookup_alter_eq, Ho.
  - by rewrite list_lookup_insert_ne, list_lookup_alter_ne.
Qed.

Lemma frame_refl σ used : wf σ -> frame used σ σ.
Proof. intros Hwf. split_and!; [done|reflexivity|done]. Qed.

Lemma frame_trans used σ1 σ2 σ3 :
  frame used σ1 σ2 -> frame used σ2 σ3 -> frame used σ1 σ3.
Proof.
  intros (_ & Hev1 & Hmw1) (Hwf & Hev2 & Hmw2).
  split_and!; [done|by etrans|].
  intros r Hr Hu. rewrite Hmw2, Hmw1; try done.
  by eapply evolves_scope.
Qed.

Lemma frame_weaken (used used' : Router -> Prop) σ σ' :
  (forall r, is_scope σ r -> used r -> used' r) ->
  frame used σ σ' -> frame used' σ σ'.
Proof.
  intros Hsub (Hwf & Hev & Hmw). split_and!; [done..|].
  intros r Hr Hu. apply Hmw; [done|]. intros Hu'. by apply Hu, Hsub.
Qed.

(** *** Use *)

Lemma Router_Use_nil r mw σ :
  has_nil mw = true ->
  Router_Use growcap r mw σ =
    Panicked "hmux: nil middleware passed to Use" σ.
Proof.
  intros Hnil.
  destruct r; simpl; unfold Mux_Use, Group_Use, mbind, M_bind;
    by rewrite check_nil_spec, Hnil.
Qed.

Lemma Router_Use_missing r mw σ :
  scope_slice σ r = None ->
  heap_of (Router_Use growcap r mw σ) = σ.
Proof.
  intros Hr.
  destruct r as [m|g]; simpl in *; unfold Mux_Use, Group_Use, mbind, M_bind;
    rewrite check_nil_spec; destruct (has_nil mw); try done;
    unfold load_mux, load_group.
  - by destruct (muxes σ !! m).
  - by destruct (groups σ !! g).
Qed.

(** A successful [Use] is [append] followed by the store of the new
    header. *)
Lemma Router_Use_append σ r s mw s' σ1 :
  scope_slice σ r = Some s ->
  has_nil mw = false ->
  append growcap s mw σ = Done s' σ1 ->
  muxes σ1 = muxes σ -> groups σ1 = groups σ ->
  Router_Use growcap r mw σ = Done tt (with_slice r s' σ1).
Proof.
  intros Hr Hnil Happ Hm Hg.
  destruct r as [m|g]; simpl in *; unfold Mux_Use, Group_Use, mbind, M_bind;
    rewrite check_nil_spec, Hnil; unfold load_mux, load_group.
  - destruct (muxes σ !! m) as [o|] eqn:Ho; simplify_eq/=.
    rewrite Happ. unfold store_mux_middleware. rewrite Hm, Ho.
    f_equal. unfold set_muxes. f_equal. rewrite Hm.
    by apply (insert_as_alter (fun o => MkMux (m_mux o) s')).
  - destruct (groups σ !! g) as [o|] eqn:Ho; simplify_eq/=.
    rewrite Happ. unfold store_group_middleware. rewrite Hg, Ho.
    f_equal. unfold set_groups. f_equal. rewrite Hg.
    by apply (insert_as_alter (fun o => MkGroup (g_mux o) (g_prefix o) s')).
Qed.

Lemma slice_ok_in_heap σ s p :
  slice_ok σ s -> s_ptr s = Some p -> p < length (arrays σ).
Proof.
  intros [_ Hptr] Hp. rewrite Hp in Hptr.
  destruct Hptr as (a & Ha & _). by eapply lookup_lt_Some.
Qed.

(** On valid input [Use] returns; the list of the scope has the new
    elements at its end, and no other scope is touched. *)
Lemma Router_Use_ok σ r s mw :
  wf σ -> scope_slice σ r = Some s -> has_nil mw = false ->
  exists σ',
    Router_Use growcap r mw σ = Done tt σ' /\
    servemuxes σ' = servemuxes σ /\
    middleware_of σ' r = middleware_of σ r ++ mw /\
    frame (fun r' => r' = r) σ σ'.
Proof.
  intros Hwf Hr Hnil.
  pose proof (wf_slices _ Hwf _ _ Hr) as Hok.
  destruct (append_spec growcap σ s mw Hok)
    as (s' & σ1 & Happ & Hsm & Hm & Hg & Hel & Hok' & Hptr & Hfr).
  exists (with_slice r s' σ1).
  split; [by eapply Router_Use_append|].
  assert (Hss : forall r0,
             scope_slice (with_slice r s' σ1) r0 =
               if decide (r0 = r) then Some s' else scope_slice σ r0).
  { intros r0. rewrite scope_slice_with_slice.
    rewrite !(scope_slice_same σ σ1) by done.
    case_decide; [by rewrite Hr|done]. }
  assert (Hother : forall r0 s0,
             r0 <> r -> scope_slice σ r0 = Some s0 ->
             slice_ok σ1 s0 /\ elems σ1 s0 = elems σ s0).
  { intros r0 s0 Hne Hr0. apply Hfr; [by eapply wf_slices|].
    intros p Hp0 Hp. apply Hne. by eapply (wf_separate _ Hwf). }
  assert (Hels : forall t, elems (with_slice r s' σ1) t = elems σ1 t).
  { intros t. apply elems_arrays_eq. intros. by rewrite with_slice_arrays. }
  assert (Hoks : forall t, slice_ok σ1 t -> slice_ok (with_slice r s' σ1) t).
  { intros t. apply slice_ok_arrays_eq. intros. by rewrite with_slice_arrays. }
  split; [by rewrite with_slice_servemuxes|].
  split.
  { unfold middleware_of. rewrite Hss, decide_True, Hr by done. simpl.
    by rewrite Hels. }
  split_and!.
  - split.
    + intros r0 s0. rewrite Hss. case_decide as Hd.
      * intros [= <-]. by apply Hoks.
      * intros Hr0. apply Hoks. by eapply Hother.
    + intros r1 r2 s1 s2 p. rewrite !Hss.
      destruct (decide (r1 = r)) as [->|Hne1], (decide (r2 = r)) as [->|Hne2];
        try done.
      * intros [= <-] Hr2 Hp1 Hp2. exfalso.
        destruct Hptr as [Hptr|Hptr]; rewrite Hptr in Hp1.
        -- apply Hne2. by eapply (wf_separate _ Hwf).
        -- simplify_eq.
           pose proof (slice_ok_in_heap σ s2 _
                         (wf_slices _ Hwf _ _ Hr2) Hp2). lia.
      * intros Hr1 [= <-] Hp1 Hp2. exfalso.
        destruct Hptr as [Hptr|Hptr]; rewrite Hptr in Hp2.
        -- apply Hne1. by eapply (wf_separate _ Hwf).
        -- simplify_eq.
           pose proof (slice_ok_in_heap σ s1 _
                         (wf_slices _ Hwf _ _ Hr1) Hp1). lia.
      * by apply (wf_separate _ Hwf).
    + rewrite with_slice_muxes, with_slice_servemuxes, Hm, Hsm.
      apply (wf_mux_sink _ Hwf).
    + rewrite with_slice_groups, muxes_length, with_slice_muxes, Hm, Hg.
      rewrite <- muxes_length. apply (wf_group_root _ Hwf).
  - split.
    + by rewrite with_slice_muxes, Hm.
    + by rewrite with_slice_groups, Hg.
    + intros sm regs Hsm'. exists [].
      by rewrite with_slice_servemuxes, Hsm, app_nil_r.
  - intros r0 [s0 Hr0] Hne. unfold middleware_of.
    rewrite Hss, decide_False, Hr0 by done. simpl.
    rewrite Hels. by eapply Hother.
Qed.

(** Whatever its outcome, [Use] on [r] leaves every other scope as it
    was. *)
Lemma Router_Use_frame σ r mw :
  wf σ -> frame (fun r' => r' = r) σ (heap_of (Router_Use growcap r mw σ)).
Proof.
  intros Hwf.
  destruct (has_nil mw) eqn:Hnil.
  { rewrite Router_Use_nil by done. by apply frame_refl. }
  destruct (scope_slice σ r) as [s|] eqn:Hr.
  - destruct (Router_Use_ok σ r s mw) as (σ' & -> & _ & _ & Hfr); done.
  - rewrite Router_Use_missing by done. by apply frame_refl.
Qed.

Lemma append_done s mw σ :
  exists s' σ',
    append growcap s mw σ = Done s' σ' /\
    servemuxes σ' = servemuxes σ /\
    muxes σ' = muxes σ /\ groups σ' = groups σ.
Proof.
  unfold append.
  destruct (s_len s + length mw <=? s_cap s); [destruct (s_ptr s)|];
    eexists _, _; (split; [reflexivity|done]).
Qed.

(** [Use] never writes to a ServeMux. *)
Lemma Router_Use_servemuxes σ r mw :
  servemuxes (heap_of (Router_Use growcap r mw σ)) = servemuxes σ.
Proof.
  destruct (has_nil mw) eqn:Hnil.
  { by rewrite Router_Use_nil. }
  destruct (scope_slice σ r) as [s|] eqn:Hr.
  - destruct (append_done s mw σ) as (s' & σ1 & Happ & Hsm & Hm & Hg).
    erewrite Router_Use_append by done. simpl.
    by rewrite with_slice_servemuxes.
  - by rewrite Router_Use_missing.
Qed.

(** *** Group *)

Lemma Router_Group_bad r prefix σ :
  bad_prefix prefix = true ->
  Router_Group r prefix σ =
    Panicked "hmux: group prefix must be empty or start with /" σ.
Proof.
  intros Hbad. destruct r; simpl; unfold Mux_Group, Group_Group;
    by rewrite Hbad.
Qed.

Lemma Router_Group_missing r prefix σ :
  scope_slice σ r = None ->
  heap_of (Router_Group r prefix σ) = σ.
Proof.
  intros Hr.
  destruct r as [m|g]; simpl in *; unfold Mux_Group, Group_Group;
    destruct (bad_prefix prefix); try done;
    unfold mbind, M_bind, load_mux, load_group.
  - by destruct (muxes σ !! m).
  - by destruct (groups σ !! g).
Qed.

(** A successful [Group] allocates one group and one array: the group
    points to the root of [r], its prefix is the joined prefix, and its
    list is a copy of the list of [r]. *)
Lemma Router_Group_ok σ r s prefix :
  slice_ok σ s -> scope_slice σ r = Some s -> bad_prefix prefix = false ->
  exists m pfx,
    root_of σ r = Some m /\
    child_prefix σ r prefix = Some pfx /\
    Router_Group r prefix σ =
      Done (RGroup (length (groups σ)))
           (add_group
              (MkGroup m pfx
                 (Slice (Some (length (arrays σ))) (s_len s) (s_len s)))
              (elems σ s) σ).
Proof.
  intros Hok Hr Hbad.
  destruct r as [m|g]; simpl in *; unfold Mux_Group, Group_Group;
    rewrite Hbad; unfold mbind, M_bind, load_mux, load_group.
  - destruct (muxes σ !! m) as [o|] eqn:Ho; cbn in Hr; simplify_eq.
    exists m, prefix. split_and!; try done.
    cbv beta iota. rewrite make_fresh. cbv beta iota.
    rewrite copy_fresh by done. reflexivity.
  - destruct (groups σ !! g) as [o|] eqn:Ho; cbn in Hr; simplify_eq.
    eexists _, _. split_and!; try done.
    cbv beta iota. rewrite make_fresh. cbv beta iota.
    rewrite copy_fresh by done. reflexivity.
Qed.

Lemma scope_slice_add_group σ o a r0 :
  scope_slice (add_group o a σ) r0 =
    if decide (r0 = RGroup (length (groups σ))) then Some (g_middleware o)
    else scope_slice σ r0.
Proof.
  case_decide as Hd.
  - subst r0. simpl. by rewrite list_lookup_middle.
  - destruct r0 as [m0|g0]; [done|]. simpl.
    destruct (decide (g0 < length (groups σ))) as [Hlt|Hge].
    + by rewrite lookup_app_l.
    + assert (g0 <> length (groups σ)) by congruence.
      rewrite !(lookup_ge_None_2 _ g0); [done|lia|].
      rewrite length_app. simpl. lia.
Qed.

Lemma root_in_heap σ r m :
  wf σ -> root_of σ r = Some m -> m < length (muxes σ).
Proof.
  intros Hwf. destruct r as [m0|g0]; simpl.
  - destruct (muxes σ !! m0) eqn:H0; intros [= <-].
    by eapply lookup_lt_Some.
  - destruct (groups σ !! g0) as [o|] eqn:H0; intros [= <-].
    pose proof (wf_group_root _ Hwf) as Hall.
    rewrite Forall_lookup in Hall.
    apply (Hall g0 (g_fixed o)).
    by rewrite list_lookup_fmap, H0.
Qed.

(** Allocating a group with a copy of the list of [r] touches no scope
    of the heap. *)
Lemma add_group_frame σ r s m pfx :
  wf σ -> scope_slice σ r = Some s -> m < length (muxes σ) ->
  let g := RGroup (length (groups σ)) in
  let σ' := add_group
              (MkGroup m pfx
                 (Slice (Some (length (arrays σ))) (s_len s) (s_len s)))
              (elems σ s) σ in
  frame (fun _ => False) σ σ' /\
  is_scope σ' g /\ ~ is_scope σ g /\
  middleware_of σ' g = middleware_of σ r.
Proof.
  intros Hwf Hr Hm g σ'.
  pose proof (wf_slices _ Hwf _ _ Hr) as Hok.
  pose proof (elems_length _ _ Hok) as Hlen.
  assert (Hold : forall t,
             slice_ok σ t -> slice_ok σ' t /\ elems σ' t = elems σ t).
  { intros t Ht.
    assert (forall p, s_ptr t = Some p -> arrays σ' !! p = arrays σ !! p).
    { intros p Hp. simpl. apply lookup_app_l.
      by eapply slice_ok_in_heap. }
    split; [by eapply slice_ok_arrays_eq|by apply elems_arrays_eq]. }
  assert (Hnew : ~ is_scope σ g).
  { unfold is_scope, g. simpl. rewrite fmap_is_Some, lookup_lt_is_Some. lia. }
  assert (Hss : forall r0, is_scope σ r0 ->
             scope_slice σ' r0 = scope_slice σ r0).
  { intros r0 Hr0. unfold σ'. rewrite scope_slice_add_group.
    rewrite decide_False; [done|]. intros ->. by apply Hnew. }
  split_and!; [split_and!| | |].
  - split.
    + intros r0 s0. unfold σ'. rewrite scope_slice_add_group.
      case_decide.
      * intros [= <-]. split; simpl; [done|].
        rewrite list_lookup_middle by done.
        eexists. split; [done|]. lia.
      * intros Hr0. by apply Hold, (wf_slices _ Hwf r0).
    + intros r1 r2 s1 s2 p. unfold σ'. rewrite !scope_slice_add_group.
      repeat case_decide; subst; try done.
      * intros [= <-] Hr2 [= <-] Hp2.
        pose proof (slice_ok_in_heap σ s2 _ (wf_slices _ Hwf _ _ Hr2) Hp2).
        lia.
      * intros Hr1 [= <-] Hp1 [= <-].
        pose proof (slice_ok_in_heap σ s1 _ (wf_slices _ Hwf _ _ Hr1) Hp1).
        lia.
      * by apply (wf_separate _ Hwf).
    + apply (wf_mux_sink _ Hwf).
    + simpl. rewrite fmap_app. apply Forall_app. split.
      * apply (wf_group_root _ Hwf).
      * by apply Forall_singleton.
  - split; simpl.
    + done.
    + rewrite fmap_app. by apply prefix_app_r.
    + intros sm regs ->. exists []. by rewrite app_nil_r.
  - intros r0 Hr0 _. unfold middleware_of. rewrite Hss by done.
    destruct Hr0 as [s0 Hr0]. rewrite Hr0. simpl.
    by apply Hold, (wf_slices _ Hwf r0).
  - unfold is_scope, σ'. rewrite scope_slice_add_group, decide_True by done.
    done.
  - done.
  - unfold middleware_of, σ'.
    rewrite scope_slice_add_group, decide_True, Hr by done. simpl.
    unfold elems. simpl. rewrite list_lookup_middle by done. simpl.
    change (take (s_len s) (elems σ s) = elems σ s).
    apply take_ge. lia.
Qed.

Lemma Router_Group_frame σ r prefix :
  wf σ -> frame (fun _ => False) σ (heap_of (Router_Group r prefix σ)).
Proof.
  intros Hwf.
  destruct (bad_prefix prefix) eqn:Hbad.
  { rewrite Router_Group_bad by done. by apply frame_refl. }
  destruct (scope_slice σ r) as [s|] eqn:Hr.
  - destruct (Router_Group_ok σ r s prefix)
      as (m & pfx & Hroot & _ & ->); [by eapply wf_slices|done..|].
    simpl. eapply add_group_frame; [done..|]. by eapply root_in_heap.
  - rewrite Router_Group_missing by done. by apply frame_refl.
Qed.

(** *** Handle *)

Lemma Router_HandleFunc_Handle r :
  Router_HandleFunc reject r = Router_Handle reject r.
Proof. by destruct r. Qed.

(** What [Handle] does on a scope of a well-formed heap: it wraps the
    handler with the list of the scope as it is now and hands the full
    pattern and the wrapped handler to the ServeMux of the root. *)
Lemma Router_Handle_ok σ r pattern h :
  wf σ -> is_scope σ r ->
  exists m o regs fp,
    root_of σ r = Some m /\
    muxes σ !! m = Some o /\
    servemuxes σ !! m_mux o = Some regs /\
    full_pattern σ r pattern = Some fp /\
    Router_Handle reject r pattern h σ =
      match wrap h (middleware_of σ r) with
      | Panic msg => Panicked msg σ
      | Ok h' =>
          match reject regs fp with
          | Some msg => Panicked msg σ
          | None =>
              Done tt (set_servemuxes <[m_mux o := regs ++ [(fp, h')]]> σ)
          end
      end.
Proof.
  intros Hwf [s Hr].
  assert (Hsink : forall m o, muxes σ !! m = Some o ->
             exists regs, servemuxes σ !! m_mux o = Some regs).
  { intros m o Ho. apply lookup_lt_is_Some.
    pose proof (wf_mux_sink _ Hwf) as Hall. rewrite Forall_lookup in Hall.
    apply (Hall m). by rewrite list_lookup_fmap, Ho. }
  destruct r as [m|g]; simpl in Hr.
  - destruct (muxes σ !! m) as [o|] eqn:Ho; cbn in Hr; simplify_eq.
    destruct (Hsink _ _ Ho) as [regs Hregs].
    exists m, o, regs, pattern. simpl. rewrite Ho. split_and!; try done.
    unfold middleware_of, Mux_Handle, Mux_wrap, mbind, M_bind, load_mux,
      read_slice, lift, ServeMux_Handle. simpl.
    rewrite Ho. simpl. rewrite Ho. simpl.
    destruct (wrap h (elems σ (m_middleware o))); [|done].
    by rewrite Hregs.
  - destruct (groups σ !! g) as [o|] eqn:Ho; cbn in Hr; simplify_eq.
    assert (exists mo, muxes σ !! g_mux o = Some mo) as [mo Hmo].
    { apply lookup_lt_is_Some.
      apply (root_in_heap σ (RGroup g)); [done|]. simpl. by rewrite Ho. }
    destruct (Hsink _ _ Hmo) as [regs Hregs].
    exists (g_mux o), mo, regs, (joinPattern (g_prefix o) pattern).
    simpl. rewrite Ho. split_and!; try done.
    unfold middleware_of, Group_Handle, mbind, M_bind, load_group, load_mux,
      read_slice, lift, ServeMux_Handle. simpl.
    rewrite Ho. simpl. rewrite Hmo.
    destruct (wrap h (elems σ (g_middleware o))); [|done].
    by rewrite Hregs.
Qed.

(** Registering in a ServeMux touches no scope. *)
Lemma register_frame σ sm regs e :
  wf σ -> servemuxes σ !! sm = Some regs ->
  frame (fun _ => False) σ (set_servemuxes <[sm := regs ++ [e]]> σ).
Proof.
  intros Hwf Hsm. split_and!.
  - split.
    + intros r s Hr. apply (slice_ok_arrays_eq σ); [done|].
      apply (wf_slices _ Hwf r). by destruct r.
    + intros r1 r2 s1 s2 p H1 H2.
      apply (wf_separate _ Hwf r1 r2 s1 s2 p); [by destruct r1|by destruct r2].
    + simpl. rewrite length_insert. apply (wf_mux_sink _ Hwf).
    + apply (wf_group_root _ Hwf).
  - split; [done|done|]. simpl. intros sm' regs' H'.
    destruct (decide (sm = sm')) as [<-|Hne].
    + rewrite list_lookup_insert_eq by (by eapply lookup_lt_Some).
      simplify_eq. by eexists.
    + rewrite list_lookup_insert_ne by done. exists [].
      by rewrite app_nil_r.
  - intros r _ _. unfold middleware_of.
    replace (scope_slice (set_servemuxes <[sm:=regs ++ [e]]> σ) r)
      with (scope_slice σ r) by (by destruct r).
    destruct (scope_slice σ r); [|done]. simpl.
    by apply elems_arrays_eq.
Qed.

Lemma Router_Handle_heap σ r pattern h :
  heap_of (Router_Handle reject r pattern h σ) = σ \/
  exists sm regs e,
    servemuxes σ !! sm = Some regs /\
    heap_of (Router_Handle reject r pattern h σ)
    = set_servemuxes <[sm := regs ++ [e]]> σ.
Proof.
  destruct r as [m|g]; simpl;
    unfold Mux_Handle, Mux_wrap, Group_Handle, mbind, M_bind, load_group,
      load_mux, read_slice, lift, ServeMux_Handle.
  - destruct (muxes σ !! m) as [o|] eqn:Ho; [|by left]. simpl.
    rewrite Ho. simpl.
    destruct (wrap h (elems σ (m_middleware o))); [|by left].
    destruct (servemuxes σ !! m_mux o) as [regs|] eqn:Hregs; [|by left].
    destruct (reject regs pattern); [by left|].
    right. by eexists _, _, _.
  - destruct (groups σ !! g) as [o|]; [|by left]. simpl.
    destruct (muxes σ !! g_mux o) as [mo|]; [|by left]. simpl.
    destruct (wrap h (elems σ (g_middleware o))); [|by left].
    destruct (servemuxes σ !! m_mux mo) as [regs|] eqn:Hregs; [|by left].
    destruct (reject regs (joinPattern (g_prefix o) pattern)); [by left|].
    right. by eexists _, _, _.
Qed.

Lemma Router_Handle_frame σ r pattern h :
  wf σ ->
  frame (fun _ => False) σ (heap_of (Router_Handle reject r pattern h σ)).
Proof.
  intros Hwf.
  destruct (Router_Handle_heap σ r pattern h)
    as [->|(sm & regs & e & Hsm & ->)].
  - by apply frame_refl.
  - by apply register_frame.
Qed.

(** *** New *)

Lemma New_frame σ : wf σ -> frame (fun _ => False) σ (heap_of (New σ)).
Proof.
  intros Hwf. simpl.
  assert (Hss : forall r,
             scope_slice
               (set_muxes
                  (fun l => l ++ [MkMux (length (servemuxes σ)) nil_slice])
                  (set_servemuxes (fun l => l ++ [[]]) σ)) r
             = if decide (r = RMux (length (muxes σ))) then Some nil_slice
               else scope_slice σ r).
  { intros r. case_decide as Hd.
    - subst r. simpl. by rewrite list_lookup_middle.
    - destruct r as [m0|g0]; [|done]. simpl.
      destruct (decide (m0 < length (muxes σ))) as [Hlt|Hge].
      + by rewrite lookup_app_l.
      + assert (m0 <> length (muxes σ)) by congruence.
        rewrite !(lookup_ge_None_2 _ m0); [done|lia|].
        rewrite length_app. simpl. lia. }
  split_and!.
  - split.
    + intros r s. rewrite Hss. case_decide.
      * intros [= <-]. by split.
      * intros Hr. apply (slice_ok_arrays_eq σ); [done|].
        by apply (wf_slices _ Hwf r).
    + intros r1 r2 s1 s2 p. rewrite !Hss.
      repeat case_decide; subst; try done.
      * by intros [= <-].
      * by intros _ [= <-].
      * by apply (wf_separate _ Hwf).
    + simpl. rewrite fmap_app, length_app. apply Forall_app. split.
      * eapply Forall_impl; [apply (wf_mux_sink _ Hwf)|].
        simpl. intros. lia.
      * apply Forall_singleton. simpl. lia.
    + simpl. rewrite length_app.
      eapply Forall_impl; [apply (wf_group_root _ Hwf)|].
      simpl. intros. lia.
  - split; simpl.
    + rewrite fmap_app. by apply prefix_app_r.
    + done.
    + intros sm regs Hsm. exists []. rewrite app_nil_r.
      by apply lookup_app_l_Some.
  - intros r [s Hr] _. unfold middleware_of. rewrite Hss.
    rewrite decide_False.
    + rewrite Hr. simpl. by apply elems_arrays_eq.
    + intros ->. simpl in Hr.
      rewrite lookup_ge_None_2 in Hr by lia. done.
Qed.

(** *** Group and With as derivations *)

Lemma Router_Group_child σ r prefix :
  wf σ -> is_scope σ r -> bad_prefix prefix = false ->
  exists pfx σ',
    child_prefix σ r prefix = Some pfx /\
    Router_Group r prefix σ = Done (RGroup (length (groups σ))) σ' /\
    child_of σ r pfx [] (RGroup (length (groups σ))) σ'.
Proof.
  intros Hwf [s Hr] Hbad.
  destruct (Router_Group_ok σ r s prefix)
    as (m & pfx & Hroot & Hpfx & Hrun); [by eapply wf_slices|done..|].
  pose proof (root_in_heap _ _ _ Hwf Hroot) as Hm.
  destruct (add_group_frame σ r s m pfx Hwf Hr Hm)
    as (Hfr & Hin & Hout & Hmw).
  eexists pfx, _. split_and!; [done..|].
  split_and!; try done.
  - by rewrite app_nil_r.
  - rewrite Hroot. simpl. by rewrite list_lookup_middle.
  - intros pattern. simpl. by rewrite list_lookup_middle.
Qed.

Lemma Router_With_unfold r mw σ :
  Router_With growcap r mw σ =
    match Router_Group r "" σ with
    | Done g σ1 =>
        match Router_Use growcap g mw σ1 with
        | Done _ σ2 => Done g σ2
        | Panicked msg σ2 => Panicked msg σ2
        end
    | Panicked msg σ1 => Panicked msg σ1
    end.
Proof. by destruct r. Qed.

Lemma Router_With_child σ r mw :
  wf σ -> is_scope σ r -> has_nil mw = false ->
  exists pfx σ',
    child_prefix σ r "" = Some pfx /\
    Router_With growcap r mw σ = Done (RGroup (length (groups σ))) σ' /\
    child_of σ r pfx mw (RGroup (length (groups σ))) σ'.
Proof.
  intros Hwf Hr Hnil.
  destruct (Router_Group_child σ r "" Hwf Hr eq_refl)
    as (pfx & σ1 & Hpfx & Hgrp & Hfr1 & Hout & Hin & Hmw & Hroot & Hsm & Hfp).
  set (g := RGroup (length (groups σ))) in *.
  destruct Hin as [s1 Hs1].
  destruct (Router_Use_ok σ1 g s1 mw)
    as (σ2 & Huse & Hsm2 & Hmw2 & Hfr2); [apply Hfr1|done..|].
  assert (Hg1 : is_scope σ1 g) by (by exists s1).
  destruct (evolves_scope σ1 σ2 g) as (Hin2 & Hroot2 & Hfp2);
    [apply Hfr2|done|].
  exists pfx, σ2. split; [done|].
  split; [by rewrite Router_With_unfold, Hgrp, Huse|].
  split_and!; try done.
  - eapply (frame_weaken (fun r' => r' = g)); [|eapply frame_trans].
    + intros r0 Hr0 Heq. apply Hout. by rewrite <- Heq.
    + eapply frame_weaken; [|exact Hfr1]. done.
    + exact Hfr2.
  - by rewrite Hmw2, Hmw, app_nil_r.
  - by rewrite Hroot2.
  - by rewrite Hsm2.
  - intros pattern. by rewrite Hfp2.
Qed.

Lemma Router_With_frame σ r mw :
  wf σ -> frame (fun _ => False) σ (heap_of (Router_With growcap r mw σ)).
Proof.
  intros Hwf. rewrite Router_With_unfold.
  pose proof (Router_Group_frame σ r "" Hwf) as Hfr1.
  destruct (scope_slice σ r) as [s|] eqn:Hr.
  - destruct (Router_Group_child σ r "" Hwf) as (pfx & σ1 & _ & Hgrp & Hch);
      [by eexists|done|].
    rewrite Hgrp in *. simpl in Hfr1.
    destruct Hch as (_ & Hout & _).
    pose proof (Router_Use_frame σ1 (RGroup (length (groups σ))) mw
                  (proj1 Hfr1)) as Hfr2.
    eapply (frame_weaken (fun r' => r' = RGroup (length (groups σ)))).
    { intros r0 Hr0 ->. by apply Hout. }
    eapply frame_trans; [by eapply frame_weaken; [|exact Hfr1]|].
    by destruct (Router_Use growcap _ mw σ1).
  - destruct (Router_Group r "" σ) as [g σ1|msg σ1] eqn:Hgrp; [|done].
    exfalso.
    pose proof (Router_Group_missing r "" σ Hr) as Hh.
    rewrite Hgrp in Hh. simpl in Hh. subst σ1.
    destruct r as [m|g0]; simpl in *;
      unfold Mux_Group, Group_Group, mbind, M_bind, load_mux, load_group in Hgrp;
      simpl in Hgrp.
    + by destruct (muxes σ !! m).
    + by destruct (groups σ !! g0).
Qed.

(** *** Programs *)

Lemma exec_frame c σ :
  wf σ ->
  frame (fun r => uses r c) σ (heap_of (exec growcap reject c σ)).
Proof.
  intros Hwf.
  destruct c as [|r p h|r p h|r mw|r prefix|r mw]; simpl.
  - change (heap_of (mbind (M:=M) (fun _ => mret tt) New σ))
      with (heap_of (New σ)).
    eapply frame_weaken; [|by apply New_frame]. done.
  - eapply frame_weaken; [|by apply Router_Handle_frame]. done.
  - rewrite Router_HandleFunc_Handle.
    eapply frame_weaken; [|by apply Router_Handle_frame]. done.
  - eapply frame_weaken; [|by apply Router_Use_frame]. done.
  - replace (heap_of (mbind (M:=M) (fun _ => mret tt) (Router_Group r prefix) σ))
      with (heap_of (Router_Group r prefix σ))
      by (unfold mbind, M_bind; by destruct (Router_Group r prefix σ)).
    eapply frame_weaken; [|by apply Router_Group_frame]. done.
  - replace (heap_of (mbind (M:=M) (fun _ => mret tt)
                        (Router_With growcap r mw) σ))
      with (heap_of (Router_With growcap r mw σ))
      by (unfold mbind, M_bind; by destruct (Router_With growcap r mw σ)).
    eapply frame_weaken; [|by apply Router_With_frame]. done.
Qed.

(** A program leaves alone every scope it does not call [Use] on. *)
Lemma run_frame cs σ :
  wf σ ->
  frame (fun r => Exists (uses r) cs) σ (heap_of (run growcap reject cs σ)).
Proof.
  revert σ. induction cs as [|c cs IH]; intros σ Hwf.
  - by apply frame_refl.
  - pose proof (exec_frame c σ Hwf) as Hfr1.
    simpl. unfold mbind, M_bind.
    destruct (exec growcap reject c σ) as [[] σ1|msg σ1]; simpl in *.
    + eapply frame_trans.
      * eapply frame_weaken; [|exact Hfr1].
        intros r _ Hu. by apply Exists_cons_hd.
      * eapply frame_weaken; [|apply IH; apply Hfr1].
        intros r _ Hu. by apply Exists_cons_tl.
    + eapply frame_weaken; [|exact Hfr1].
      intros r _ Hu. by apply Exists_cons_hd.
Qed.

Lemma Router_With_nil r mw σ g σ' :
  has_nil mw = true -> Router_With growcap r mw σ <> Done g σ'.
Proof.
  intros Hnil. rewrite Router_With_unfold.
  destruct (Router_Group r "" σ) as [g1 σ1|]; [|done].
  by rewrite Router_Use_nil.
Qed.

Lemma step_child σ r st g σ' :
  wf σ -> is_scope σ r -> step growcap r st σ = Done g σ' ->
  exists pfx,
    g = RGroup (length (groups σ)) /\
    child_prefix σ r (step_prefix st) = Some pfx /\
    child_of σ r pfx (step_mw st) g σ'.
Proof.
  intros Hwf Hr. destruct st as [prefix|mw]; simpl.
  - destruct (bad_prefix prefix) eqn:Hbad.
    { by rewrite Router_Group_bad. }
    destruct (Router_Group_child σ r prefix Hwf Hr Hbad)
      as (pfx & σ1 & Hpfx & -> & Hch).
    intros [= <- <-]. by exists pfx.
  - destruct (has_nil mw) eqn:Hnil.
    { intros H. by apply Router_With_nil in H. }
    destruct (Router_With_child σ r mw Hwf Hr Hnil)
      as (pfx & σ1 & Hpfx & -> & Hch).
    intros [= <- <-]. by exists pfx.
Qed.

(** A scope derived by any number of [Group] and [With] steps registers
    into the root it was derived from; the derivation creates no
    ServeMux and touches no scope that existed before. *)
Lemma derive_spec sts σ r g σ' :
  wf σ -> is_scope σ r -> derive growcap sts r σ = Done g σ' ->
  frame (fun _ => False) σ σ' /\
  is_scope σ' g /\
  root_of σ' g = root_of σ r /\
  servemuxes σ' = servemuxes σ /\
  (sts <> [] -> ~ is_scope σ g /\ exists gi, g = RGroup gi).
Proof.
  revert σ r. induction sts as [|st sts IH]; intros σ r Hwf Hr; simpl.
  - intros [= <- <-]. split_and!; try done.
  - unfold mbind, M_bind.
    destruct (step growcap r st σ) as [r1 σ1|] eqn:Hst; [|done].
    destruct (step_child σ r st r1 σ1 Hwf Hr Hst)
      as (pfx & Hr1 & _ & Hfr1 & Hout & Hin & _ & Hroot & Hsm & _).
    intros Hd.
    destruct (IH σ1 r1 (proj1 Hfr1) Hin Hd)
      as (Hfr2 & Hin2 & Hroot2 & Hsm2 & Hout2).
    split_and!.
    + by eapply frame_trans.
    + done.
    + by rewrite Hroot2.
    + by rewrite Hsm2.
    + intros _. destruct sts as [|st' sts'].
      * cbv in Hd. simplify_eq. split; [done|by eexists].
      * destruct Hout2 as [Hout2 Hgi]; [done|].
        split; [|done]. intros Hg. apply Hout2.
        by eapply evolves_scope; [apply Hfr1|].
Qed.

Lemma wf_empty : wf empty_heap.
Proof.
  split.
  - by intros [m|g] s.
  - by intros [m|g] r2 s1.
  - by apply Forall_nil.
  - by apply Forall_nil.
Qed.

(** Every heap a program builds from nothing is well formed. *)
Lemma wf_run cs : wf (heap_of (run growcap reject cs empty_heap)).
Proof. apply run_frame, wf_empty. Qed.

Lemma has_nil_In mw : has_nil mw = true <-> In None mw.
Proof.
  unfold has_nil. rewrite existsb_exists. split.
  - intros ([f|] & Hin & Hx); [done|exact Hin].
  - intros Hin. by exists None.
Qed.

Lemma has_nil_not_In mw : has_nil mw = false <-> ~ In None mw.
Proof.
  rewrite <- has_nil_In. by destruct (has_nil mw).
Qed.

(** A [Handle] that returns has registered the full pattern with the
    handler wrapped by the list the scope has at the call. *)
Lemma Router_Handle_done σ r pattern h σ' :
  wf σ -> is_scope σ r ->
  Router_Handle reject r pattern h σ = Done tt σ' ->
  exists m o regs fp h',
    root_of σ r = Some m /\
    muxes σ !! m = Some o /\
    servemuxes σ !! m_mux o = Some regs /\
    full_pattern σ r pattern = Some fp /\
    wrap h (middleware_of σ r) = Ok h' /\
    reject regs fp = None /\
    σ' = set_servemuxes <[m_mux o := regs ++ [(fp, h')]]> σ.
Proof.
  intros Hwf Hr Hh.
  destruct (Router_Handle_ok σ r pattern h Hwf Hr)
    as (m & o & regs & fp & Hroot & Ho & Hregs & Hfp & Heq).
  rewrite Heq in Hh.
  destruct (wrap h (middleware_of σ r)) as [h'|]; [|done].
  destruct (reject regs fp) eqn:Hrej; [done|].
  injection Hh as <-. by exists m, o, regs, fp, h'.
Qed.

(** A [Mux] keeps its ServeMux. *)
Lemma evolves_sink σ σ' m o :
  evolves σ σ' -> muxes σ !! m = Some o ->
  exists o', muxes σ' !! m = Some o' /\ m_mux o' = m_mux o.
Proof.
  intros [Hm _ _] Ho.
  assert ((m_mux <$> muxes σ') !! m = Some (m_mux o)) as H.
  { eapply prefix_lookup_Some; [|done]. by rewrite list_lookup_fmap, Ho. }
  rewrite list_lookup_fmap in H.
  destruct (muxes σ' !! m) as [o'|]; [|done].
  exists o'. split; [done|]. by injection H.
Qed.

Lemma child_prefix_full_pattern σ r q :
  child_prefix σ r q = full_pattern σ r q.
Proof. by destruct r. Qed.

Lemma derive_middleware sts σ r g σ' :
  wf σ -> is_scope σ r -> derive growcap sts r σ = Done g σ' ->
  middleware_of σ' g = middleware_of σ r ++ concat (step_mw <$> sts).
Proof.
  revert σ r. induction sts as [|st sts IH]; intros σ r Hwf Hr; simpl.
  - intros [= <- <-]. by rewrite app_nil_r.
  - unfold mbind, M_bind.
    destruct (step growcap r st σ) as [r1 σ1|] eqn:Hst; [|done].
    destruct (step_child σ r st r1 σ1 Hwf Hr Hst)
      as (pfx & _ & _ & Hfr1 & _ & Hin & Hmw & _).
    intros Hd. rewrite (IH σ1 r1 (proj1 Hfr1) Hin Hd), Hmw.
    by rewrite <- app_assoc.
Qed.

Lemma derive_nest sts σ r p g σ' :
  wf σ -> is_scope σ r ->
  (forall pattern, full_pattern σ r pattern = Some (joinPattern p pattern)) ->
  derive growcap sts r σ = Done g σ' ->
  forall pattern,
    full_pattern σ' g pattern = Some (joinPattern (nest p sts) pattern).
Proof.
  revert σ r p. induction sts as [|st sts IH]; intros σ r p Hwf Hr Hp; simpl.
  - by intros [= <- <-].
  - unfold mbind, M_bind.
    destruct (step growcap r st σ) as [r1 σ1|] eqn:Hst; [|done].
    destruct (step_child σ r st r1 σ1 Hwf Hr Hst)
      as (pfx & _ & Hpfx & Hfr1 & _ & Hin & _ & _ & _ & Hfp).
    rewrite child_prefix_full_pattern, Hp in Hpfx. injection Hpfx as <-.
    intros Hd. by apply (IH σ1 r1 _ (proj1 Hfr1) Hin Hfp).
Qed.

End ScopeFacts.

(** * The scopes: validation, snapshots, isolation, roots *)

Section ScopeTheorems.

Variable growcap : nat -> nat -> nat.
Variable reject : ServeMux -> string -> option string.

(** C7: [Use] checks every argument before it appends anything: with a nil
    element anywhere in the arguments it panics and the heap, hence the
    list of the scope, is the one before the call. [Group] with a prefix
    that is not empty and does not start with a slash panics with the heap
    unchanged, so no scope object has been built. On valid input [Use]
    returns and the list of the scope is the old list followed by all the
    arguments in their order. *)
Theorem validation_before_mutation :
  (forall σ r mw,
     In None mw ->
     Router_Use growcap r mw σ =
       Panicked "hmux: nil middleware passed to Use" σ) /\
  (forall σ r prefix,
     prefix <> "" -> strings.HasPrefix prefix "/" = false ->
     Router_Group r prefix σ =
       Panicked "hmux: group prefix must be empty or start with /" σ) /\
  (forall σ r mw,
     wf σ -> is_scope σ r -> ~ In None mw ->
     exists σ',
       Router_Use growcap r mw σ = Done tt σ' /\
       middleware_of σ' r = middleware_of σ r ++ mw).
Proof.
  split_and!.
  - intros σ r mw Hin. apply Router_Use_nil. by apply has_nil_In.
  - intros σ r prefix Hne Hpre. apply Router_Group_bad.
    unfold bad_prefix. rewrite Hpre.
    apply String.eqb_neq in Hne. by rewrite Hne.
  - intros σ r mw Hwf [s Hr] Hnil.
    apply has_nil_not_In in Hnil.
    destruct (Router_Use_ok growcap σ r s mw Hwf Hr Hnil)
      as (σ' & Huse & _ & Hmw & _).
    by exists σ'.
Qed.

(** C4: [Handle] wraps the handler with the list the scope has at the
    call: the entry it registers is the onion of that list around the
    handler, so with recording middleware it records the names of that
    list and no other. The entry is never changed afterwards: [Use], on
    any scope, writes to no ServeMux, and after any later calls the entry
    is still in its place. A handler registered on the scope after
    [Use(X)] is wrapped with the old list followed by [X]: the old list
    outside, [X] next to the handler. *)
Theorem Handle_snapshot σ r pattern h σ1 :
  wf σ -> is_scope σ r ->
  Router_Handle reject r pattern h σ = Done tt σ1 ->
  exists m o regs fp h',
    root_of σ r = Some m /\
    muxes σ !! m = Some o /\
    servemuxes σ !! m_mux o = Some regs /\
    full_pattern σ r pattern = Some fp /\
    wrap h (middleware_of σ r) = Ok h' /\
    around (middleware_of σ r) h = Ok h' /\
    (forall names,
       middleware_of σ r = recordingMiddleware <$> names ->
       forall record,
         h' record = h (record ++ (enter <$> names)) ++ (exit <$> reverse names)) /\
    servemuxes σ1 !! m_mux o = Some (regs ++ [(fp, h')]) /\
    (forall r' X,
       servemuxes (heap_of (Router_Use growcap r' X σ1)) = servemuxes σ1) /\
    (forall cs, exists more,
       servemuxes (heap_of (run growcap reject cs σ1)) !! m_mux o
       = Some (regs ++ [(fp, h')] ++ more)) /\
    (forall X σ2,
       Router_Use growcap r X σ1 = Done tt σ2 ->
       middleware_of σ2 r = middleware_of σ r ++ X /\
       servemuxes σ2 !! m_mux o = Some (regs ++ [(fp, h')]) /\
       forall pattern2 h2 σ3,
         Router_Handle reject r pattern2 h2 σ2 = Done tt σ3 ->
         exists fp2 h2',
           full_pattern σ r pattern2 = Some fp2 /\
           wrap h2 (middleware_of σ r ++ X) = Ok h2' /\
           (around X h2 ≫= around (middleware_of σ r)) = Ok h2' /\
           (forall names xs,
              middleware_of σ r = recordingMiddleware <$> names ->
              X = recordingMiddleware <$> xs ->
              forall record,
                h2' record
                = h2 (record ++ (enter <$> names ++ xs))
                  ++ (exit <$> reverse (names ++ xs))) /\
           servemuxes σ3 !! m_mux o
           = Some (regs ++ [(fp, h')] ++ [(fp2, h2')])).
Proof.
  intros Hwf Hr Hh.
  pose proof (Router_Handle_frame reject σ r pattern h Hwf) as Hfr.
  rewrite Hh in Hfr. simpl in Hfr. destruct Hfr as (Hwf1 & Hev1 & Hmw1).
  destruct (Router_Handle_done reject σ r pattern h σ1 Hwf Hr Hh)
    as (m & o & regs & fp & h' & Hroot & Ho & Hregs & Hfp & Hw & _ & ->).
  assert (Hentry :
            servemuxes (set_servemuxes <[m_mux o:=regs ++ [(fp, h')]]> σ)
              !! m_mux o = Some (regs ++ [(fp, h')])).
  { simpl. apply list_lookup_insert_eq. by eapply lookup_lt_Some. }
  exists m, o, regs, fp, h'. split_and!; try done.
  - by rewrite <- wrap_around.
  - intros names Hnames record.
    rewrite Hnames in Hw.
    destruct (wrap_recording h names) as (h1 & Hw1 & Hh1).
    assert (h' = h1) as -> by congruence. apply Hh1.
  - intros r' X. apply Router_Use_servemuxes.
  - intros cs.
    destruct (run_frame growcap reject cs _ Hwf1) as (_ & Hev & _).
    destruct (ev_sinks _ _ Hev _ _ Hentry) as [more Hmore].
    exists more. by rewrite Hmore, <- app_assoc.
  - intros X σ2 Huse.
    destruct (evolves_scope _ _ r Hev1 Hr) as (Hr1 & Hroot1 & Hfp1).
    destruct Hr1 as [s1 Hs1].
    destruct (has_nil X) eqn:Hnil.
    { by rewrite Router_Use_nil in Huse. }
    destruct (Router_Use_ok growcap _ r s1 X Hwf1 Hs1 Hnil)
      as (σ2' & Huse' & Hsm2 & Hmw2 & Hwf2 & Hev2 & _).
    rewrite Huse in Huse'. injection Huse' as <-.
    assert (Hlist : middleware_of σ2 r = middleware_of σ r ++ X).
    { rewrite Hmw2, Hmw1; tauto. }
    split; [done|].
    split; [by rewrite Hsm2|].
    intros pattern2 h2 σ3 Hh2.
    destruct (evolves_scope _ _ r Hev2 (ex_intro _ s1 Hs1))
      as (Hr2 & Hroot2 & Hfp2).
    destruct (Router_Handle_done reject σ2 r pattern2 h2 σ3 Hwf2 Hr2 Hh2)
      as (m2 & o2 & regs2 & fp2 & h2' & Hroot3 & Ho2 & Hregs2 & Hfp3 & Hw2
          & _ & ->).
    assert (m2 = m) as -> by congruence.
    destruct (evolves_sink _ _ m o (transitivity Hev1 Hev2) Ho)
      as (o2' & Ho2' & Hsame).
    assert (o2' = o2) as -> by congruence.
    rewrite Hsame in *. rewrite Hsm2 in Hregs2.
    pose proof (eq_trans (eq_sym Hregs2) Hentry) as [= ->].
    rewrite Hlist in Hw2.
    exists fp2, h2'. split_and!.
    + by rewrite <- Hfp1, <- Hfp2.
    + done.
    + rewrite <- Hw2, wrap_app, wrap_around.
      apply Res_bind_ext. intros hx. by rewrite wrap_around.
    + intros names xs Hnames -> record.
      rewrite Hnames, <- fmap_app in Hw2.
      destruct (wrap_recording h2 (names ++ xs)) as (h1 & Hw1 & Hh1).
      assert (h2' = h1) as -> by congruence.
      rewrite Hh1. done.
    + simpl. rewrite list_lookup_insert_eq.
      * by rewrite <- app_assoc.
      * rewrite Hsm2. by eapply lookup_lt_Some.
Qed.

(** C2: the list of a scope made by [Group] or [With] is a copy taken at
    the call (followed by the arguments of [With]). The new scope is not
    the parent, and from then on the two are independent: [Use] on the
    parent does not change the list of the new scope, [Use] on the new
    scope changes the list of no other scope (parent, siblings), and after
    any later calls a scope that was not itself the receiver of [Use] has
    its list unchanged, so that [Handle] on it wraps with that list. *)
Theorem scopes_isolated σ r st g σ1 :
  wf σ -> is_scope σ r ->
  step growcap r st σ = Done g σ1 ->
  g <> r /\
  middleware_of σ1 g = middleware_of σ r ++ step_mw st /\
  middleware_of σ1 r = middleware_of σ r /\
  (forall B,
     middleware_of (heap_of (Router_Use growcap r B σ1)) g
     = middleware_of σ1 g) /\
  (forall C r',
     is_scope σ1 r' -> r' <> g ->
     middleware_of (heap_of (Router_Use growcap g C σ1)) r'
     = middleware_of σ1 r') /\
  (forall cs r',
     is_scope σ1 r' -> ~ Exists (uses r') cs ->
     let σ2 := heap_of (run growcap reject cs σ1) in
     middleware_of σ2 r' = middleware_of σ1 r' /\
     forall pattern h,
     exists m o regs fp,
       root_of σ1 r' = Some m /\
       muxes σ2 !! m = Some o /\
       servemuxes σ2 !! m_mux o = Some regs /\
       full_pattern σ1 r' pattern = Some fp /\
       Router_Handle reject r' pattern h σ2 =
         match wrap h (middleware_of σ1 r') with
         | Panic msg => Panicked msg σ2
         | Ok h' =>
             match reject regs fp with
             | Some msg => Panicked msg σ2
             | None =>
                 Done tt (set_servemuxes <[m_mux o := regs ++ [(fp, h')]]> σ2)
             end
         end).
Proof.
  intros Hwf Hr Hst.
  destruct (step_child growcap σ r st g σ1 Hwf Hr Hst)
    as (pfx & _ & _ & Hfr & Hout & Hin & Hmw & _).
  destruct Hfr as (Hwf1 & Hev & Hsame).
  assert (Hne : g <> r) by (intros ->; by apply Hout).
  split_and!; try done.
  - apply Hsame; tauto.
  - intros B.
    apply (Router_Use_frame growcap σ1 r B Hwf1); [done|].
    by intros ->.
  - intros C r' Hr' Hne'.
    by apply (Router_Use_frame growcap σ1 g C Hwf1).
  - intros cs r' Hr' Hnot σ2.
    destruct (run_frame growcap reject cs σ1 Hwf1) as (Hwf2 & Hev2 & Hsame2).
    fold σ2 in Hwf2, Hev2, Hsame2.
    destruct (evolves_scope σ1 σ2 r' Hev2 Hr') as (Hr2 & Hroot2 & Hfp2).
    assert (Hmw2 : middleware_of σ2 r' = middleware_of σ1 r')
      by (by apply Hsame2).
    split; [done|].
    intros pattern h.
    destruct (Router_Handle_ok reject σ2 r' pattern h Hwf2 Hr2)
      as (m & o & regs & fp & Hroot & Ho & Hregs & Hfp & Heq).
    exists m, o, regs, fp.
    rewrite <- Hroot2, <- Hfp2, <- Hmw2. by split_and!.
Qed.

(** The join with the empty prefix changes the pattern exactly when the
    path of the pattern does not start with a slash. *)
Lemma joinPattern_empty_prefix pattern :
  joinPattern "" pattern = pattern <->
  starts_with_slash (splitMethodPath pattern).2 = true.
Proof.
  rewrite joinPattern_as_described. unfold joinPattern_described.
  pose proof (splitMethodPath_rebuild pattern) as Hre.
  destruct (splitMethodPath pattern) as [method path]. simpl.
  unfold ensure_leading_slash.
  assert (Hlen : forall a b : string, a = b -> String.length a = String.length b)
    by (by intros a b ->).
  destruct Hre as [[-> ->]|[Hm ->]].
  - destruct (starts_with_slash pattern) eqn:Hs; [done|].
    split; [|done]. intros H%Hlen. simpl in H. lia.
  - destruct (is_method_shape _ Hm) as [Hne _].
    destruct method as [|c method]; [done|].
    destruct (starts_with_slash path) eqn:Hs; [done|].
    split; [|done]. intros H%Hlen.
    rewrite !string_app_length in H. simpl in H. lia.
Qed.

(** C9, amended: [Handle] hands to the ServeMux of the root the handler
    wrapped with the current list of the scope, under the pattern
    [joinPattern prefix pattern] for a group and under the pattern as
    given for the root [Mux], which has no prefix and does not join. The
    pattern the root registers equals [joinPattern "" pattern] exactly
    when the path of the pattern starts with a slash. *)
Theorem Handle_registers σ r pattern h :
  wf σ -> is_scope σ r ->
  (exists m o regs fp,
     root_of σ r = Some m /\
     muxes σ !! m = Some o /\
     servemuxes σ !! m_mux o = Some regs /\
     match r with
     | RMux _ => fp = pattern
     | RGroup g =>
         exists go, groups σ !! g = Some go /\
                    fp = joinPattern (g_prefix go) pattern
     end /\
     Router_Handle reject r pattern h σ =
       match wrap h (middleware_of σ r) with
       | Panic msg => Panicked msg σ
       | Ok h' =>
           match reject regs fp with
           | Some msg => Panicked msg σ
           | None =>
               Done tt (set_servemuxes <[m_mux o := regs ++ [(fp, h')]]> σ)
           end
       end) /\
  (joinPattern "" pattern = pattern <->
   starts_with_slash (splitMethodPath pattern).2 = true).
Proof.
  intros Hwf Hr. split; [|apply joinPattern_empty_prefix].
  destruct (Router_Handle_ok reject σ r pattern h Hwf Hr)
    as (m & o & regs & fp & Hroot & Ho & Hregs & Hfp & Heq).
  exists m, o, regs, fp. split_and!; try done.
  destruct r as [m0|g0]; simpl in Hfp.
  - destruct (muxes σ !! m0); by simplify_eq/=.
  - destruct (groups σ !! g0) as [go|]; simplify_eq/=. by exists go.
Qed.

(** C10: a scope derived from a root [Mux] by [Group] and [With] steps is
    a [Group] whose [mux] field is that root. The derivation allocates no
    ServeMux and leaves the list of the root as it was, and no sequence of
    calls made on scopes other than the root changes the list of the root.
    [Handle] and [HandleFunc] on the derived scope register, in the
    ServeMux of the root, the pattern joined to the nested prefix of the
    derivation (method first, then the prefix without its trailing slash,
    then the slash-led path) and the handler inside the onion of the list
    of the root followed by the arguments of the [With] steps. *)
Theorem derived_scopes_share_root σ m sts g σ' :
  wf σ -> is_scope σ (RMux m) -> sts <> [] ->
  derive growcap sts (RMux m) σ = Done g σ' ->
  exists gi go o regs,
    g = RGroup gi /\
    groups σ' !! gi = Some go /\
    g_mux go = m /\
    muxes σ' !! m = Some o /\
    servemuxes σ' !! m_mux o = Some regs /\
    servemuxes σ' = servemuxes σ /\
    middleware_of σ' (RMux m) = middleware_of σ (RMux m) /\
    (forall c,
       receiver c = Some g ->
       middleware_of (heap_of (exec growcap reject c σ')) (RMux m)
       = middleware_of σ' (RMux m)) /\
    (forall cs,
       Forall (fun c => receiver c <> Some (RMux m)) cs ->
       middleware_of (heap_of (run growcap reject cs σ')) (RMux m)
       = middleware_of σ (RMux m)) /\
    middleware_of σ' g
    = middleware_of σ (RMux m) ++ concat (step_mw <$> sts) /\
    (forall pattern h,
       Router_HandleFunc reject g pattern h σ'
       = Router_Handle reject g pattern h σ' /\
       joinPattern (g_prefix go) pattern
       = joinPattern_described (root_nest sts) pattern /\
       wrap h (middleware_of σ' g)
       = around (middleware_of σ (RMux m) ++ concat (step_mw <$> sts)) h /\
       Router_Handle reject g pattern h σ' =
         match wrap h (middleware_of σ' g) with
         | Panic msg => Panicked msg σ'
         | Ok h' =>
             match reject regs (joinPattern (g_prefix go) pattern) with
             | Some msg => Panicked msg σ'
             | None =>
                 Done tt
                   (set_servemuxes
                      <[m_mux o :=
                          regs ++ [(joinPattern (g_prefix go) pattern, h')]]>
                      σ')
             end
         end).
Proof.
  intros Hwf Hm Hsts Hd.
  destruct (derive_spec growcap sts σ (RMux m) g σ' Hwf Hm Hd)
    as (Hfr & Hin & Hroot & Hsm & Hnew).
  destruct (Hnew Hsts) as [Hout [gi ->]].
  destruct Hfr as (Hwf' & Hev & Hsame).
  destruct (evolves_scope σ σ' (RMux m) Hev Hm) as (Hm' & _ & _).
  assert (Hrm : root_of σ (RMux m) = Some m).
  { destruct Hm as [s Hs]. simpl in *. by destruct (muxes σ !! m). }
  rewrite Hrm in Hroot. simpl in Hroot.
  destruct (groups σ' !! gi) as [go|] eqn:Hgo; [|done].
  injection Hroot as Hgm.
  destruct (Router_Handle_ok reject σ' (RGroup gi) "" id Hwf' Hin)
    as (m1 & o & regs & fp & Hroot1 & Ho & Hregs & _ & _).
  simpl in Hroot1. rewrite Hgo in Hroot1. simpl in Hroot1.
  assert (m1 = m) as -> by congruence.
  assert (Hroot_same : middleware_of σ' (RMux m) = middleware_of σ (RMux m))
    by (apply Hsame; tauto).
  pose proof (derive_middleware growcap sts σ (RMux m) (RGroup gi) σ'
                Hwf Hm Hd) as Hlist.
  assert (Hnest : forall pattern,
             joinPattern (g_prefix go) pattern
             = joinPattern (root_nest sts) pattern).
  { destruct sts as [|st sts']; [done|]. intros pattern.
    simpl in Hd. unfold mbind, M_bind in Hd.
    destruct (step growcap (RMux m) st σ) as [r1 σ1|] eqn:Hst; [|done].
    destruct (step_child growcap σ (RMux m) st r1 σ1 Hwf Hm Hst)
      as (pfx & _ & Hpfx & Hfr1 & _ & Hin1 & _ & _ & _ & Hfp1).
    assert (pfx = step_prefix st) as ->.
    { simpl in Hpfx. destruct (muxes σ !! m); by simplify_eq/=. }
    pose proof (derive_nest growcap sts' σ1 r1 _ (RGroup gi) σ'
                  (proj1 Hfr1) Hin1 Hfp1 Hd pattern) as Hfp.
    simpl in Hfp. rewrite Hgo in Hfp. simpl in Hfp. by injection Hfp. }
  exists gi, go, o, regs. split_and!; try done.
  - intros c Hc.
    apply (exec_frame growcap reject c σ' Hwf'); [done|].
    destruct c; simpl in *; try tauto. intros ->. done.
  - intros cs Hcs. rewrite <- Hroot_same.
    apply (run_frame growcap reject cs σ' Hwf'); [done|].
    rewrite Exists_exists. intros (c & Hc & Hu).
    rewrite Forall_forall in Hcs. apply (Hcs c Hc).
    destruct c; simpl in *; try tauto. by subst.
  - intros pattern h. split; [by rewrite Router_HandleFunc_Handle|].
    split; [by rewrite Hnest, joinPattern_as_described|].
    split; [by rewrite wrap_around, Hlist|].
    destruct (Router_Handle_ok reject σ' (RGroup gi) pattern h Hwf' Hin)
      as (m2 & o2 & regs2 & fp2 & Hroot2 & Ho2 & Hregs2 & Hfp2 & Heq).
    simpl in Hroot2, Hfp2. rewrite Hgo in Hroot2, Hfp2. simpl in *.
    simplify_eq. done.
Qed.

End ScopeTheorems.

(** ** With *)

Section WithFacts.

Variable growcap : nat -> nat -> nat.

(** The prefix [Group("")] gives a sub-scope of a group joins like the
    prefix of the group. *)
Lemma joinPattern_empty_child prefix pattern :
  joinPattern (joinPattern prefix "") pattern = joinPattern prefix pattern.
Proof.
  rewrite !joinPattern_as_described.
  change (joinPattern_described prefix "")
    with (strip_one_slash prefix +:+ "/").
  unfold joinPattern_described.
  destruct (splitMethodPath pattern) as [method path].
  by rewrite strip_one_slash_app.
Qed.

(** X20: [With] on a group gives a scope that registers every pattern
    under the full pattern the group itself would use. *)
Lemma With_on_group_same_pattern σ g0 mw g σ' pattern :
  wf σ -> is_scope σ (RGroup g0) ->
  Router_With growcap (RGroup g0) mw σ = Done g σ' ->
  full_pattern σ' g pattern = full_pattern σ (RGroup g0) pattern.
Proof.
  intros Hwf Hr Hw.
  destruct (step_child growcap σ (RGroup g0) (StepWith mw) g σ' Hwf Hr Hw)
    as (pfx & _ & Hpfx & Hch).
  destruct Hch as (_ & _ & _ & _ & _ & _ & Hfp).
  rewrite Hfp. simpl in *.
  destruct (groups σ !! g0) as [go|]; simplify_eq/=.
  by rewrite joinPattern_empty_child.
Qed.

(** X19: [With(A).With(B)] and [With(A, B)] give scopes with the same
    list, [A] before [B], and the same full patterns. *)
Lemma With_chain σ r A B g1 σ1 g2 σ2 g3 σ3 :
  wf σ -> is_scope σ r ->
  Router_With growcap r A σ = Done g1 σ1 ->
  Router_With growcap g1 B σ1 = Done g2 σ2 ->
  Router_With growcap r (A ++ B) σ = Done g3 σ3 ->
  middleware_of σ2 g2 = middleware_of σ r ++ A ++ B /\
  middleware_of σ3 g3 = middleware_of σ r ++ A ++ B /\
  forall pattern, full_pattern σ2 g2 pattern = full_pattern σ3 g3 pattern.
Proof.
  intros Hwf Hr H1 H2 H3.
  destruct (step_child growcap σ r (StepWith A) g1 σ1 Hwf Hr H1)
    as (pfx1 & Hg1 & Hpfx1 & Hfr1 & _ & Hin1 & Hmw1 & _ & _ & Hfp1).
  destruct (step_child growcap σ1 g1 (StepWith B) g2 σ2 (proj1 Hfr1) Hin1 H2)
    as (pfx2 & _ & Hpfx2 & _ & _ & _ & Hmw2 & _ & _ & Hfp2).
  destruct (step_child growcap σ r (StepWith (A ++ B)) g3 σ3 Hwf Hr H3)
    as (pfx3 & _ & Hpfx3 & _ & _ & _ & Hmw3 & _ & _ & Hfp3).
  simpl in *.
  assert (pfx3 = pfx1) as -> by congruence.
  assert (pfx2 = joinPattern pfx1 "") as ->.
  { subst g1. simpl in *. specialize (Hfp1 "").
    destruct (groups σ1 !! length (groups σ)) as [go|]; simplify_eq/=.
    congruence. }
  split_and!.
  - by rewrite Hmw2, Hmw1, <- app_assoc.
  - done.
  - intros pattern. by rewrite Hfp2, Hfp3, joinPattern_empty_child.
Qed.

End WithFacts.

(** C8, at the input where the code departs from it: [With] on the root
    [Mux] gives a group with the empty prefix, whose [Handle] joins, so the
    host pattern [example.com/users] is registered as
    [/example.com/users]; the root itself registers it as given. The
    scope returned by [With] on the root does not have the effective
    prefix of the root. *)
Theorem With_on_root_prefixes_slash :
  registered_patterns
    ((m ← New; Mux_Handle accept_all m "example.com/users" test_handler)
       empty_heap)
  = Some [["example.com/users"]] /\
  registered_patterns
    ((m ← New; w ← Mux_With doubling m [];
      Router_Handle accept_all w "example.com/users" test_handler)
       empty_heap)
  = Some [["/example.com/users"]].
Proof. split; vm_compute; reflexivity. Qed.

(** C9 as first stated fails at the host pattern [example.com/users]: the
    root registers it as given, which is not its join with the empty
    prefix. *)
Lemma root_pattern_is_not_joined :
  registered_patterns
    ((m ← New; Mux_Handle accept_all m "example.com/users" test_handler)
       empty_heap)
  = Some [["example.com/users"]] /\
  joinPattern "" "example.com/users" = "/example.com/users" /\
  "example.com/users" <> joinPattern "" "example.com/users".
Proof.
  split; [vm_compute; reflexivity|].
  split; [reflexivity|].
  intros [=].
Qed.

(** ** The theorems at concrete inputs *)

Lemma example_heap_wf : wf example_heap.
Proof. apply wf_run. Qed.

Lemma example_heap_root : is_scope example_heap (RMux 0).
Proof. eexists. reflexivity. Qed.

Lemma validation_before_mutation_witness :
  Router_Use doubling (RMux 0) [recordingMiddleware "B"; None] example_heap
  = Panicked "hmux: nil middleware passed to Use" example_heap /\
  Router_Group (RMux 0) "api" example_heap
  = Panicked "hmux: group prefix must be empty or start with /" example_heap /\
  exists σ',
    Router_Use doubling (RMux 0) [recordingMiddleware "B"] example_heap
    = Done tt σ' /\
    middleware_of σ' (RMux 0)
    = middleware_of example_heap (RMux 0) ++ [recordingMiddleware "B"].
Proof.
  destruct (validation_before_mutation doubling) as (Hnil & Hbad & Hok).
  split; [|split].
  - apply Hnil. right. left. reflexivity.
  - apply Hbad; [discriminate|reflexivity].
  - apply Hok.
    + exact example_heap_wf.
    + exact example_heap_root.
    + intros [H|[]]. discriminate H.
Defined.

Lemma Handle_snapshot_witness :
  exists σ1 σ2 σ3 hb ha,
    Router_Handle accept_all (RMux 0) "/before" test_handler example_heap
    = Done tt σ1 /\
    Router_Use doubling (RMux 0) [recordingMiddleware "M"] σ1 = Done tt σ2 /\
    Router_Handle accept_all (RMux 0) "/after" test_handler σ2 = Done tt σ3 /\
    servemuxes σ2 !! 0 = Some [("/before", hb)] /\
    servemuxes σ3 !! 0 = Some [("/before", hb); ("/after", ha)] /\
    hb [] = ["A:enter"; "handler"; "A:exit"] /\
    ha [] = ["A:enter"; "M:enter"; "handler"; "M:exit"; "A:exit"].
Proof.
  set (σ1 := heap_of (Router_Handle accept_all (RMux 0) "/before"
                        test_handler example_heap)).
  set (σ2 := heap_of (Router_Use doubling (RMux 0)
                        [recordingMiddleware "M"] σ1)).
  set (σ3 := heap_of (Router_Handle accept_all (RMux 0) "/after"
                        test_handler σ2)).
  destruct (Handle_snapshot doubling accept_all example_heap (RMux 0)
              "/before" test_handler σ1
              example_heap_wf example_heap_root eq_refl)
    as (m & o & regs & fp & hb & Hroot & Ho & Hregs & Hfp & _ & _ & Htrace
        & _ & _ & _ & Hafter).
  injection Hroot as <-. injection Ho as <-.
  injection Hregs as <-. injection Hfp as <-.
  destruct (Hafter [recordingMiddleware "M"] σ2 eq_refl)
    as (_ & Hkept & Hnext).
  destruct (Hnext "/after" test_handler σ3 eq_refl)
    as (fp2 & ha & Hfp2 & _ & _ & Htrace2 & Hentry2).
  injection Hfp2 as <-.
  exists σ1, σ2, σ3, hb, ha.
  split; [reflexivity|]. split; [reflexivity|]. split; [reflexivity|].
  split; [exact Hkept|]. split; [exact Hentry2|].
  split.
  - exact (Htrace ["A"] eq_refl []).
  - exact (Htrace2 ["A"] ["M"] eq_refl eq_refl []).
Defined.

Lemma scopes_isolated_witness :
  exists g σ1,
    step doubling (RMux 0) (StepGroup "/g") example_heap = Done g σ1 /\
    forall B,
      middleware_of (heap_of (Router_Use doubling (RMux 0) B σ1)) g
      = middleware_of σ1 g.
Proof.
  eexists _, _. split; [reflexivity|].
  destruct (scopes_isolated doubling accept_all example_heap (RMux 0)
              (StepGroup "/g") _ _
              example_heap_wf example_heap_root eq_refl)
    as (_ & _ & _ & Hparent & _).
  exact Hparent.
Defined.

Lemma Handle_registers_witness :
  exists m o regs fp,
    root_of example_heap (RMux 0) = Some m /\
    muxes example_heap !! m = Some o /\
    servemuxes example_heap !! m_mux o = Some regs /\
    fp = "GET /users" /\
    Router_Handle accept_all (RMux 0) "GET /users" test_handler example_heap =
      match wrap test_handler (middleware_of example_heap (RMux 0)) with
      | Panic msg => Panicked msg example_heap
      | Ok h' =>
          match accept_all regs fp with
          | Some msg => Panicked msg example_heap
          | None =>
              Done tt
                (set_servemuxes <[m_mux o := regs ++ [(fp, h')]]> example_heap)
          end
      end.
Proof.
  exact (proj1 (Handle_registers accept_all example_heap (RMux 0)
                  "GET /users" test_handler
                  example_heap_wf example_heap_root)).
Defined.

Lemma derived_scopes_share_root_witness :
  exists g σ' go σ'' h',
    derive doubling [StepGroup "/api"; StepWith [recordingMiddleware "B"]]
      (RMux 0) example_heap = Done g σ' /\
    groups σ' !! 1 = Some go /\
    servemuxes σ' = servemuxes example_heap /\
    middleware_of σ' (RMux 0) = middleware_of example_heap (RMux 0) /\
    middleware_of σ' g
    = middleware_of example_heap (RMux 0) ++ [recordingMiddleware "B"] /\
    joinPattern (g_prefix go) "GET users" = "GET /api/users" /\
    Router_Handle accept_all g "GET users" test_handler σ' = Done tt σ'' /\
    servemuxes σ'' !! 0 = Some [("GET /api/users", h')] /\
    h' [] = ["A:enter"; "B:enter"; "handler"; "B:exit"; "A:exit"].
Proof.
  set (σ' := heap_of
               (derive doubling
                  [StepGroup "/api"; StepWith [recordingMiddleware "B"]]
                  (RMux 0) example_heap)).
  destruct (derived_scopes_share_root doubling accept_all example_heap 0
              [StepGroup "/api"; StepWith [recordingMiddleware "B"]]
              (RGroup 1) σ'
              example_heap_wf example_heap_root
              ltac:(discriminate) eq_refl)
    as (gi & go & o & regs & Hg & Hgo & _ & Ho & Hregs & Hsm & Hmw & _ & _
        & Hlist & Hhandle).
  injection Hg as <-. injection Hgo as <-.
  destruct (Hhandle "GET users" test_handler) as (_ & Hfp & _ & _).
  set (σ'' := heap_of (Router_Handle accept_all (RGroup 1) "GET users"
                         test_handler σ')).
  exists (RGroup 1), σ'. eexists _, σ'', (from_option snd test_handler (servemuxes σ'' !! 0 ≫= head)).
  split; [reflexivity|]. split; [reflexivity|].
  split; [exact Hsm|]. split; [exact Hmw|]. split; [exact Hlist|].
  split; [exact Hfp|].
  split; [reflexivity|]. split; reflexivity.
Defined.


(** * Further properties of the package *)

(** ** The pattern joiner on valid prefixes *)

Section JoinerFacts.

Implicit Types (p q s pattern : string).

Lemma is_method_no_space m : is_method m = true -> no_space m = true.
Proof.
  rewrite is_method_iff. simpl.
  intros H. repeat destruct H as [<-|H]; try done.
Qed.

(** A string that starts with a slash is never read as method and path. *)
Lemma splitMethodPath_slash q :
  starts_with_slash q = true -> splitMethodPath q = ("", q).
Proof.
  intros Hq.
  destruct (first_space_split q) as [H|(tok & rest & -> & H)].
  - by apply splitMethodPath_no_space.
  - rewrite splitMethodPath_first_space by done.
    destruct (is_method tok) eqn:Hm; [|done].
    destruct (is_method_shape _ Hm) as [Hne Hs].
    destruct tok as [|c tok]; [done|].
    simpl in Hq, Hs. congruence.
Qed.

Lemma strip_one_slash_starts p :
  starts_with_slash p = true ->
  strip_one_slash p = "" \/ starts_with_slash (strip_one_slash p) = true.
Proof.
  destruct p as [|c [|d p]]; simpl; try done.
  - intros ->. by left.
  - intros ->. by right.
Qed.

Lemma starts_with_slash_app a b :
  (a = "" \/ starts_with_slash a = true) -> starts_with_slash b = true ->
  starts_with_slash (a +:+ b) = true.
Proof.
  intros [->|Ha] Hb; [done|].
  destruct a; [done|]. done.
Qed.

Lemma strip_one_slash_valid p :
  valid_prefix p = true ->
  strip_one_slash p = "" \/ starts_with_slash (strip_one_slash p) = true.
Proof.
  unfold valid_prefix. intros [H|H]%orb_prop.
  - apply String.eqb_eq in H as ->. by left.
  - by apply strip_one_slash_starts.
Qed.

Lemma ensure_leading_slash_starts s :
  starts_with_slash (ensure_leading_slash s) = true.
Proof.
  unfold ensure_leading_slash.
  by destruct (starts_with_slash s) eqn:H.
Qed.

Lemma joinPattern_split prefix pattern :
  valid_prefix prefix = true ->
  splitMethodPath (joinPattern prefix pattern) =
    ((splitMethodPath pattern).1,
     strip_one_slash prefix +:+ ensure_leading_slash (splitMethodPath pattern).2)
  /\ starts_with_slash
       (strip_one_slash prefix
        +:+ ensure_leading_slash (splitMethodPath pattern).2) = true.
Proof.
  intros Hp.
  assert (Hj : starts_with_slash
                 (strip_one_slash prefix
                  +:+ ensure_leading_slash (splitMethodPath pattern).2) = true).
  { apply starts_with_slash_app; [by apply strip_one_slash_valid|].
    apply ensure_leading_slash_starts. }
  split; [|done].
  rewrite joinPattern_as_described. unfold joinPattern_described.
  pose proof (splitMethodPath_rebuild pattern) as Hre.
  destruct (splitMethodPath pattern) as [method path]. simpl in *.
  destruct Hre as [[-> ->]|[Hm ->]].
  - by apply splitMethodPath_slash.
  - destruct (is_method_shape _ Hm) as [Hne _].
    destruct method as [|c method]; [done|].
    rewrite splitMethodPath_first_space by (by apply is_method_no_space).
    by rewrite Hm.
Qed.

(** The join of two prefixes [Group] accepts starts with a slash. *)
Lemma joinPattern_valid p q :
  valid_prefix p = true -> valid_prefix q = true ->
  valid_prefix (joinPattern p q) = true.
Proof.
  intros Hp Hq.
  assert (joinPattern p q = strip_one_slash p +:+ ensure_leading_slash q) as ->.
  { rewrite joinPattern_as_described. unfold joinPattern_described.
    unfold valid_prefix in Hq. apply orb_prop in Hq as [Hq|Hq].
    - apply String.eqb_eq in Hq as ->. reflexivity.
    - by rewrite splitMethodPath_slash. }
  unfold valid_prefix. apply orb_true_intro. right.
  apply starts_with_slash_app; [by apply strip_one_slash_valid|].
  apply ensure_leading_slash_starts.
Qed.

End JoinerFacts.

(** X1: [splitMethodPath] loses nothing: the method it returns is empty
    and the path is the whole input, or the method is one of the nine
    names and the input is the method, one space and the path. *)
Theorem splitMethodPath_roundtrip (pattern : string) :
  (splitMethodPath pattern = ("", pattern)) \/
  (In (splitMethodPath pattern).1 recognized_methods /\
   pattern = (splitMethodPath pattern).1 +:+ " " +:+ (splitMethodPath pattern).2).
Proof.
  pose proof (splitMethodPath_rebuild pattern) as H.
  destruct (splitMethodPath pattern) as [method path]. simpl.
  destruct H as [[-> ->]|[Hm ->]]; [by left|].
  right. split; [|done]. by apply is_method_iff.
Qed.

(** X2: with a prefix that [Group] accepts, the joined pattern splits back
    into the method of the original pattern and a path that starts with a
    slash: the trimmed prefix followed by the path. Joining the result
    once more with the empty prefix changes nothing. *)
Theorem joinPattern_keeps_method (prefix pattern : string) :
  valid_prefix prefix = true ->
  splitMethodPath (joinPattern prefix pattern) =
    ((splitMethodPath pattern).1,
     strip_one_slash prefix +:+ ensure_leading_slash (splitMethodPath pattern).2) /\
  starts_with_slash (splitMethodPath (joinPattern prefix pattern)).2 = true /\
  joinPattern "" (joinPattern prefix pattern) = joinPattern prefix pattern.
Proof.
  intros Hp.
  destruct (joinPattern_split prefix pattern Hp) as [Hsplit Hj].
  split; [done|]. rewrite Hsplit. simpl. split; [done|].
  apply joinPattern_empty_prefix. by rewrite Hsplit.
Qed.

Lemma joinPattern_keeps_method_witness :
  valid_prefix "/api/" = true /\
  splitMethodPath (joinPattern "/api/" "DELETE users/{id}")
  = ("DELETE", "/api/users/{id}").
Proof.
  split; [reflexivity|].
  exact (proj1 (joinPattern_keeps_method "/api/" "DELETE users/{id}" eq_refl)).
Defined.

(** X3: a pattern that starts with a slash is joined as a path, whatever
    it contains after the slash: the result is the prefix without one
    trailing slash, followed by the pattern. *)
Theorem joinPattern_path_only (prefix pattern : string) :
  starts_with_slash pattern = true ->
  joinPattern prefix pattern = strip_one_slash prefix +:+ pattern.
Proof.
  intros Hs. rewrite joinPattern_as_described. unfold joinPattern_described.
  rewrite splitMethodPath_slash by done.
  unfold ensure_leading_slash. by rewrite Hs.
Qed.

Lemma joinPattern_path_only_witness :
  starts_with_slash "/files/GET /x" = true /\
  joinPattern "/api/" "/files/GET /x" = "/api/files/GET /x".
Proof.
  split; [reflexivity|].
  exact (joinPattern_path_only "/api/" "/files/GET /x" eq_refl).
Defined.

(** ** Chains *)

Lemma wrap_with_nil_panics (h : Handler) (mw : list Middleware) :
  In None mw -> exists msg, wrap h mw = Panic msg.
Proof.
  induction mw as [|m mw IH]; [done|].
  rewrite wrap_cons. intros [->|Hin].
  - destruct (wrap h mw) as [h'|msg]; simpl; by eexists.
  - destruct (IH Hin) as [msg ->]. by exists msg.
Qed.

(** X4: chains compose like the lists they hold: the chain of [l1 ++ l2]
    is the chain of [l2] applied first (inside) and the chain of [l1]
    applied to its result (outside). The empty chain returns the handler
    it is given, and the chain of one middleware is that middleware. *)
Theorem Chain_compose (h : Handler) :
  (forall l1 l2,
     call (Chain (l1 ++ l2)) h = call (Chain l2) h ≫= call (Chain l1)) /\
  call (Chain []) h = Ok h /\
  (forall m, call (Chain [m]) h = call m h).
Proof.
  split_and!.
  - intros l1 l2. simpl. apply wrap_app.
  - reflexivity.
  - intros m. simpl. apply wrap_singleton.
Qed.

(** ** More on the scopes *)

Section MoreScopeFacts.

Variable growcap : nat -> nat -> nat.
Variable reject : ServeMux -> string -> option string.

Implicit Types (σ : Heap) (r : Router) (s : slice) (mw : list Middleware).

Lemma has_nil_app mw1 mw2 :
  has_nil (mw1 ++ mw2) = has_nil mw1 || has_nil mw2.
Proof. apply existsb_app. Qed.

Lemma bad_prefix_valid prefix : bad_prefix prefix = negb (valid_prefix prefix).
Proof.
  unfold bad_prefix, valid_prefix.
  by rewrite HasPrefix_slash, negb_orb.
Qed.

(** *** Panics *)

Lemma Router_Use_panic σ r mw msg σ' :
  wf σ -> Router_Use growcap r mw σ = Panicked msg σ' -> σ' = σ.
Proof.
  intros Hwf Hp.
  destruct (has_nil mw) eqn:Hnil.
  { rewrite Router_Use_nil in Hp by done. by injection Hp. }
  destruct (scope_slice σ r) as [s|] eqn:Hr.
  - destruct (Router_Use_ok growcap σ r s mw Hwf Hr Hnil) as (σ2 & Hok & _).
    congruence.
  - pose proof (Router_Use_missing growcap r mw σ Hr) as Hh.
    by rewrite Hp in Hh.
Qed.

Lemma Router_Handle_panic σ r pattern h msg σ' :
  Router_Handle reject r pattern h σ = Panicked msg σ' -> σ' = σ.
Proof.
  destruct r as [m|g]; simpl;
    unfold Mux_Handle, Mux_wrap, Group_Handle, mbind, M_bind, load_group,
      load_mux, read_slice, lift, ServeMux_Handle.
  - destruct (muxes σ !! m) as [o|] eqn:Ho; [|by intros [= _ <-]]. simpl.
    rewrite Ho. simpl.
    destruct (wrap h (elems σ (m_middleware o))); [|by intros [= _ <-]].
    destruct (servemuxes σ !! m_mux o) as [regs|]; [|by intros [= _ <-]].
    destruct (reject regs pattern); [by intros [= _ <-]|done].
  - destruct (groups σ !! g) as [o|]; [|by intros [= _ <-]]. simpl.
    destruct (muxes σ !! g_mux o) as [mo|]; [|by intros [= _ <-]]. simpl.
    destruct (wrap h (elems σ (g_middleware o))); [|by intros [= _ <-]].
    destruct (servemuxes σ !! m_mux mo) as [regs|]; [|by intros [= _ <-]].
    destruct (reject regs (joinPattern (g_prefix o) pattern));
      [by intros [= _ <-]|done].
Qed.

Lemma Router_Group_panic σ r prefix msg σ' :
  wf σ -> Router_Group r prefix σ = Panicked msg σ' -> σ' = σ.
Proof.
  intros Hwf Hp.
  destruct (bad_prefix prefix) eqn:Hbad.
  { rewrite Router_Group_bad in Hp by done. by injection Hp. }
  destruct (scope_slice σ r) as [s|] eqn:Hr.
  - destruct (Router_Group_ok σ r s prefix) as (m & pfx & _ & _ & Hok);
      [by eapply wf_slices|done..|]. congruence.
  - pose proof (Router_Group_missing r prefix σ Hr) as Hh.
    by rewrite Hp in Hh.
Qed.

(** *** What each call does to the fixed fields *)

Lemma Router_Use_static σ r mw :
  let σ' := heap_of (Router_Use growcap r mw σ) in
  m_mux <$> muxes σ' = m_mux <$> muxes σ /\
  g_fixed <$> groups σ' = g_fixed <$> groups σ.
Proof.
  simpl.
  destruct (has_nil mw) eqn:Hnil.
  { by rewrite Router_Use_nil. }
  destruct (scope_slice σ r) as [s|] eqn:Hr.
  - destruct (append_done growcap s mw σ) as (s' & σ1 & Happ & Hsm & Hm & Hg).
    erewrite Router_Use_append by done. simpl.
    by rewrite with_slice_muxes, with_slice_groups, Hm, Hg.
  - by rewrite Router_Use_missing.
Qed.

Lemma Router_Group_static σ r prefix :
  wf σ ->
  let σ' := heap_of (Router_Group r prefix σ) in
  muxes σ' = muxes σ /\
  servemuxes σ' = servemuxes σ /\
  (σ' = σ \/
   exists m pfx s,
     valid_prefix prefix = true /\
     root_of σ r = Some m /\
     child_prefix σ r prefix = Some pfx /\
     Router_Group r prefix σ = Done (RGroup (length (groups σ))) σ' /\
     groups σ' = groups σ ++ [MkGroup m pfx s]).
Proof.
  intros Hwf. simpl.
  destruct (bad_prefix prefix) eqn:Hbad.
  { rewrite Router_Group_bad by done. simpl. split_and!; try done. by left. }
  destruct (scope_slice σ r) as [s|] eqn:Hr.
  - destruct (Router_Group_ok σ r s prefix) as (m & pfx & Hroot & Hpfx & Hok);
      [by eapply wf_slices|done..|].
    rewrite Hok. simpl. split_and!; try done.
    right. eexists m, pfx, _. split_and!; try done.
    rewrite bad_prefix_valid in Hbad. by destruct (valid_prefix prefix).
  - rewrite Router_Group_missing by done. split_and!; try done. by left.
Qed.

Lemma Router_With_heap σ r mw :
  wf σ ->
  heap_of (Router_With growcap r mw σ) = σ \/
  exists g σ1,
    Router_Group r "" σ = Done g σ1 /\
    heap_of (Router_With growcap r mw σ)
    = heap_of (Router_Use growcap g mw σ1).
Proof.
  intros Hwf. rewrite Router_With_unfold.
  destruct (Router_Group r "" σ) as [g σ1|msg σ1] eqn:Hg.
  - right. exists g, σ1. split; [done|].
    by destruct (Router_Use growcap g mw σ1).
  - left. simpl. by eapply Router_Group_panic.
Qed.

Lemma exec_heap_bind {A} (c : M A) σ :
  heap_of (mbind (M:=M) (fun _ => mret tt) c σ) = heap_of (c σ).
Proof. unfold mbind, M_bind. by destruct (c σ). Qed.

(** The pointers of the [Mux] objects: only [New] adds one, to a fresh
    ServeMux. *)
Lemma exec_muxes c σ :
  wf σ ->
  let σ' := heap_of (exec growcap reject c σ) in
  m_mux <$> muxes σ' = m_mux <$> muxes σ \/
  m_mux <$> muxes σ' = (m_mux <$> muxes σ) ++ [length (servemuxes σ)].
Proof.
  intros Hwf.
  destruct c as [|r p h|r p h|r mw|r prefix|r mw]; simpl.
  - right. by rewrite fmap_app.
  - left. destruct (Router_Handle_heap reject σ r p h)
      as [->|(sm & regs & e & _ & ->)]; done.
  - left. rewrite Router_HandleFunc_Handle.
    destruct (Router_Handle_heap reject σ r p h)
      as [->|(sm & regs & e & _ & ->)]; done.
  - left. apply Router_Use_static.
  - left. rewrite exec_heap_bind.
    destruct (Router_Group_static σ r prefix Hwf) as (-> & _). done.
  - left. rewrite exec_heap_bind.
    destruct (Router_With_heap σ r mw Hwf) as [->|(g & σ1 & Hg & ->)]; [done|].
    destruct (Router_Use_static σ1 g mw) as [-> _].
    destruct (Router_Group_static σ r "" Hwf) as (Hm & _).
    rewrite Hg in Hm. simpl in Hm. by rewrite Hm.
Qed.

(** The fixed fields of the groups: only [Group] and [With] add a group,
    with a prefix [Group] accepts, joined to the prefix of the parent. *)
Lemma exec_groups c σ :
  wf σ ->
  let σ' := heap_of (exec growcap reject c σ) in
  g_fixed <$> groups σ' = g_fixed <$> groups σ \/
  exists r prefix m pfx,
    valid_prefix prefix = true /\
    root_of σ r = Some m /\
    child_prefix σ r prefix = Some pfx /\
    g_fixed <$> groups σ' = (g_fixed <$> groups σ) ++ [(m, pfx)].
Proof.
  intros Hwf.
  destruct c as [|r p h|r p h|r mw|r prefix|r mw]; simpl.
  - by left.
  - left. destruct (Router_Handle_heap reject σ r p h)
      as [->|(sm & regs & e & _ & ->)]; done.
  - left. rewrite Router_HandleFunc_Handle.
    destruct (Router_Handle_heap reject σ r p h)
      as [->|(sm & regs & e & _ & ->)]; done.
  - left. apply Router_Use_static.
  - rewrite exec_heap_bind.
    destruct (Router_Group_static σ r prefix Hwf)
      as (_ & _ & [->|(m & pfx & s & Hv & Hroot & Hpfx & _ & ->)]);
      [by left|].
    right. exists r, prefix, m, pfx. split_and!; try done.
    by rewrite fmap_app.
  - rewrite exec_heap_bind.
    destruct (Router_With_heap σ r mw Hwf) as [->|(g & σ1 & Hg & ->)];
      [by left|].
    destruct (Router_Use_static σ1 g mw) as [_ ->].
    destruct (Router_Group_static σ r "" Hwf)
      as (_ & _ & [Heq|(m & pfx & s & Hv & Hroot & Hpfx & _ & Hgr)]);
      rewrite Hg in *; simpl in *.
    + left. by rewrite Heq.
    + right. exists r, "", m, pfx. split_and!; try done.
      by rewrite Hgr, fmap_app.
Qed.


End MoreScopeFacts.

(** ** Invariants of the heaps a program builds *)

Section TidyFacts.

Variable growcap : nat -> nat -> nat.
Variable reject : ServeMux -> string -> option string.

Lemma tidy_empty : tidy empty_heap.
Proof.
  split_and!; [apply wf_empty|apply NoDup_nil_2|apply Forall_nil_2].
Qed.

Lemma child_prefix_valid σ r prefix pfx :
  Forall (fun mp => valid_prefix mp.2 = true) (g_fixed <$> groups σ) ->
  valid_prefix prefix = true ->
  child_prefix σ r prefix = Some pfx ->
  valid_prefix pfx = true.
Proof.
  intros Hall Hv. destruct r as [m|g]; simpl.
  - destruct (muxes σ !! m); intros [= <-]. done.
  - destruct (groups σ !! g) as [o|] eqn:Ho; intros [= <-].
    apply joinPattern_valid; [|done].
    rewrite Forall_lookup in Hall.
    apply (Hall g (g_fixed o)). by rewrite list_lookup_fmap, Ho.
Qed.

Lemma exec_tidy c σ : tidy σ -> tidy (heap_of (exec growcap reject c σ)).
Proof.
  intros (Hwf & Hnd & Hpre). split_and!.
  - apply exec_frame, Hwf.
  - destruct (exec_muxes growcap reject c σ Hwf) as [->| ->]; [done|].
    apply NoDup_app. split_and!; [done| |apply NoDup_singleton].
    intros sm Hin ->%list_elem_of_singleton.
    pose proof (wf_mux_sink _ Hwf) as Hall.
    rewrite Forall_forall in Hall. specialize (Hall _ Hin). lia.
  - destruct (exec_groups growcap reject c σ Hwf)
      as [->|(r & prefix & m & pfx & Hv & _ & Hpfx & ->)]; [done|].
    apply Forall_app. split; [done|].
    apply Forall_singleton. simpl. by eapply child_prefix_valid.
Qed.

Lemma run_tidy cs σ : tidy σ -> tidy (heap_of (run growcap reject cs σ)).
Proof.
  revert σ. induction cs as [|c cs IH]; intros σ Ht; [done|].
  pose proof (exec_tidy c σ Ht) as Ht1.
  simpl. unfold mbind, M_bind.
  destruct (exec growcap reject c σ) as [[] σ1|msg σ1]; simpl in *; [|done].
  by apply IH.
Qed.


Lemma with_slice_same σ r s :
  scope_slice σ r = Some s -> with_slice r s σ = σ.
Proof.
  intros Hr. destruct σ as [sms ms gs arrs].
  destruct r as [m|g]; simpl in *; unfold set_muxes, set_groups; simpl;
    f_equal.
  - destruct (ms !! m) as [o|] eqn:Ho; simplify_eq/=.
    rewrite <- (insert_as_alter _ _ _ o Ho). apply list_insert_id.
    by destruct o.
  - destruct (gs !! g) as [o|] eqn:Ho; simplify_eq/=.
    rewrite <- (insert_as_alter _ _ _ o Ho). apply list_insert_id.
    by destruct o.
Qed.

Lemma append_nothing σ s :
  slice_ok σ s -> append growcap s [] σ = Done s σ.
Proof.
  intros [Hle Hptr]. unfold append. simpl length.
  rewrite Nat.add_0_r.
  destruct (s_len s <=? s_cap s) eqn:Hfit; [|apply Nat.leb_gt in Hfit; lia].
  destruct s as [[p|] len cap]; simpl in *; [|done].
  unfold mbind, M_bind, write_cells, mret, M_ret. f_equal.
  destruct σ as [sms ms gs arrs]. unfold set_arrays. simpl. f_equal.
  apply list_alter_id. intros a. unfold overwrite. simpl.
  rewrite Nat.add_0_r. apply take_drop.
Qed.

End TidyFacts.

(** * Further theorems on the scopes *)

Section MoreScopeTheorems.

Variable growcap : nat -> nat -> nat.
Variable reject : ServeMux -> string -> option string.

(** X5: [New] allocates a [Mux] and a ServeMux that did not exist, with
    no middleware and no registration; the scopes and ServeMuxes that
    existed are as they were. A handler registered on the new [Mux] right
    away is registered as it is, unwrapped, because the list is empty. *)
Theorem New_is_fresh σ :
  wf σ ->
  exists σ' o,
    New σ = Done (length (muxes σ)) σ' /\
    ~ is_scope σ (RMux (length (muxes σ))) /\
    muxes σ' !! length (muxes σ) = Some o /\
    servemuxes σ !! m_mux o = None /\
    servemuxes σ' = servemuxes σ ++ [[]] /\
    servemuxes σ' !! m_mux o = Some [] /\
    middleware_of σ' (RMux (length (muxes σ))) = [] /\
    (forall r, is_scope σ r -> middleware_of σ' r = middleware_of σ r) /\
    forall pattern h,
      Router_Handle reject (RMux (length (muxes σ))) pattern h σ' =
        match reject [] pattern with
        | Some msg => Panicked msg σ'
        | None => Done tt (set_servemuxes <[m_mux o := [(pattern, h)]]> σ')
        end.
Proof.
  intros Hwf.
  destruct (New_frame σ Hwf) as (Hwf' & Hev & Hsame).
  eexists _, (MkMux (length (servemuxes σ)) nil_slice).
  split; [reflexivity|]. simpl in *.
  assert (Hm : (muxes σ ++ [MkMux (length (servemuxes σ)) nil_slice])
               !! length (muxes σ)
               = Some (MkMux (length (servemuxes σ)) nil_slice))
    by (by apply list_lookup_middle).
  split_and!.
  - unfold is_scope. simpl. rewrite fmap_is_Some, lookup_lt_is_Some. lia.
  - done.
  - by apply lookup_ge_None_2.
  - done.
  - by apply list_lookup_middle.
  - unfold middleware_of. simpl. by rewrite Hm.
  - intros r Hr. apply Hsame; tauto.
  - intros pattern h.
    unfold Mux_Handle, Mux_wrap, mbind, M_bind, load_mux, read_slice, lift,
      ServeMux_Handle. simpl.
    rewrite Hm. simpl. rewrite Hm. simpl.
    rewrite list_lookup_middle by done. done.
Qed.

(** X6: [Use] without arguments changes nothing at all: the heap after
    the call is the heap before it. *)
Theorem Use_of_nothing σ r :
  wf σ -> is_scope σ r ->
  Router_Use growcap r [] σ = Done tt σ.
Proof.
  intros Hwf [s Hr].
  pose proof (wf_slices _ Hwf _ _ Hr) as Hok.
  rewrite (Router_Use_append growcap σ r s [] s σ Hr eq_refl
             (append_nothing growcap σ s Hok) eq_refl eq_refl).
  by rewrite with_slice_same.
Qed.

(** X7: calls to [Use] accumulate: [Use(A)] followed by [Use(B)] gives
    the scope the list it gets from one [Use] with [A] followed by [B],
    the old list followed by [A] and then [B]; a nil element in [A] or in
    [B] is refused either way. Neither way registers anything: the
    ServeMuxes are, after each of the three calls, what they were before
    the first. *)
Theorem Use_accumulates σ r A B :
  wf σ -> is_scope σ r -> ~ In None A -> ~ In None B ->
  exists σ1 σ2 σ3,
    Router_Use growcap r A σ = Done tt σ1 /\
    Router_Use growcap r B σ1 = Done tt σ2 /\
    Router_Use growcap r (A ++ B) σ = Done tt σ3 /\
    middleware_of σ2 r = middleware_of σ r ++ A ++ B /\
    middleware_of σ3 r = middleware_of σ r ++ A ++ B /\
    servemuxes σ2 = servemuxes σ3 /\
    servemuxes σ1 = servemuxes σ /\
    servemuxes σ2 = servemuxes σ /\
    servemuxes σ3 = servemuxes σ.
Proof.
  intros Hwf [s Hr] HA%has_nil_not_In HB%has_nil_not_In.
  destruct (Router_Use_ok growcap σ r s A Hwf Hr HA)
    as (σ1 & H1 & Hsm1 & Hmw1 & Hwf1 & Hev1 & _).
  destruct (evolves_scope σ σ1 r Hev1 (ex_intro _ s Hr)) as ([s1 Hr1] & _).
  destruct (Router_Use_ok growcap σ1 r s1 B Hwf1 Hr1 HB)
    as (σ2 & H2 & Hsm2 & Hmw2 & _).
  assert (HAB : has_nil (A ++ B) = false)
    by (by rewrite has_nil_app, HA, HB).
  destruct (Router_Use_ok growcap σ r s (A ++ B) Hwf Hr HAB)
    as (σ3 & H3 & Hsm3 & Hmw3 & _).
  exists σ1, σ2, σ3. split_and!; try done.
  - by rewrite Hmw2, Hmw1, <- app_assoc.
  - congruence.
  - congruence.
Qed.

(** X8: along a derivation from the root by [Group] and [With] steps,
    middleware accumulates in order (the list of the derived scope is the
    list of the root followed by the arguments of the [With] steps, first
    step first) and prefixes nest: the first prefix is taken as given and
    every later one is joined to what came before. *)
Theorem derive_accumulates σ m st sts g σ' :
  wf σ -> is_scope σ (RMux m) ->
  derive growcap (st :: sts) (RMux m) σ = Done g σ' ->
  middleware_of σ' g
  = middleware_of σ (RMux m) ++ concat (step_mw <$> st :: sts) /\
  forall pattern,
    full_pattern σ' g pattern
    = Some (joinPattern (nest (step_prefix st) sts) pattern).
Proof.
  intros Hwf Hm Hd. split; [by eapply (derive_middleware growcap)|].
  simpl in Hd. unfold mbind, M_bind in Hd.
  destruct (step growcap (RMux m) st σ) as [r1 σ1|] eqn:Hst; [|done].
  destruct (step_child growcap σ (RMux m) st r1 σ1 Hwf Hm Hst)
    as (pfx & _ & Hpfx & Hfr1 & _ & Hin & _ & _ & _ & Hfp).
  assert (pfx = step_prefix st) as ->.
  { simpl in Hpfx. destruct (muxes σ !! m); by simplify_eq/=. }
  by apply (derive_nest growcap sts σ1 r1 _ g σ' (proj1 Hfr1) Hin Hfp).
Qed.

(** X9: [Handler] returns, without changing the heap, the ServeMux that
    every scope rooted at the [Mux] registers into, and returns the same
    one after any sequence of calls. A handler registered directly on it
    is stored and served as it is, where [Handle] on the [Mux] with the
    same pattern and handler stores and serves the handler inside the
    onion of the list of the [Mux]. *)
Theorem Handler_bypasses_middleware
    (Request : Type) (dispatch : ServeMux -> Request -> Handler)
    σ m pattern h :
  wf σ -> is_scope σ (RMux m) ->
  exists o regs,
    muxes σ !! m = Some o /\
    servemuxes σ !! m_mux o = Some regs /\
    Mux_Handler m σ = Done (m_mux o) σ /\
    (forall cs,
       result (Mux_Handler m (heap_of (run growcap reject cs σ)))
       = Ok (m_mux o)) /\
    (forall r pattern0 h0 σ1,
       is_scope σ r -> root_of σ r = Some m ->
       Router_Handle reject r pattern0 h0 σ = Done tt σ1 ->
       exists e, servemuxes σ1 !! m_mux o = Some (regs ++ [e])) /\
    (sm ← Mux_Handler m; ServeMux_Handle reject sm pattern h) σ =
      match reject regs pattern with
      | Some msg => Panicked msg σ
      | None => Done tt (set_servemuxes <[m_mux o := regs ++ [(pattern, h)]]> σ)
      end /\
    (forall σ1 req record,
       (sm ← Mux_Handler m; ServeMux_Handle reject sm pattern h) σ
       = Done tt σ1 ->
       result (Mux_ServeHTTP Request dispatch m req record σ1)
       = Ok (dispatch (regs ++ [(pattern, h)]) req record)) /\
    (forall σ1 req record,
       Router_Handle reject (RMux m) pattern h σ = Done tt σ1 ->
       exists h',
         around (middleware_of σ (RMux m)) h = Ok h' /\
         result (Mux_ServeHTTP Request dispatch m req record σ1)
         = Ok (dispatch (regs ++ [(pattern, h')]) req record)).
Proof.
  intros Hwf Hm.
  destruct (Router_Handle_ok reject σ (RMux m) pattern h Hwf Hm)
    as (m' & o & regs & fp & Hroot & Ho & Hregs & _ & _).
  simpl in Hroot. destruct (muxes σ !! m) as [o0|] eqn:Ho0; [|done].
  simpl in Hroot. injection Hroot as <-.
  assert (o = o0) as -> by congruence.
  assert (Hlt : m_mux o0 < length (servemuxes σ))
    by (by eapply lookup_lt_Some).
  assert (Hdirect :
            (sm ← Mux_Handler m; ServeMux_Handle reject sm pattern h) σ =
            match reject regs pattern with
            | Some msg => Panicked msg σ
            | None =>
                Done tt
                  (set_servemuxes <[m_mux o0 := regs ++ [(pattern, h)]]> σ)
            end).
  { unfold Mux_Handler, mbind, M_bind, load_mux, ServeMux_Handle.
    rewrite Ho0. simpl. by rewrite Hregs. }
  assert (Hserve : forall e req record,
             result (Mux_ServeHTTP Request dispatch m req record
                       (set_servemuxes <[m_mux o0 := regs ++ [e]]> σ))
             = Ok (dispatch (regs ++ [e]) req record)).
  { intros e req record.
    unfold Mux_ServeHTTP, ServeMux_ServeHTTP, mbind, M_bind, load_mux,
      load_servemux.
    simpl. rewrite Ho0. simpl. by rewrite list_lookup_insert_eq. }
  exists o0, regs. split_and!; try done.
  - unfold Mux_Handler, mbind, M_bind, load_mux. by rewrite Ho0.
  - intros cs.
    destruct (run_frame growcap reject cs σ Hwf) as (_ & Hev & _).
    destruct (evolves_sink _ _ m o0 Hev Ho0) as (o' & Ho' & Hsame).
    unfold Mux_Handler, mbind, M_bind, load_mux.
    rewrite Ho'. simpl. by rewrite Hsame.
  - intros r pattern0 h0 σ1 Hr Hroot Hh.
    destruct (Router_Handle_done reject σ r pattern0 h0 σ1 Hwf Hr Hh)
      as (m1 & o1 & regs1 & fp1 & h1 & Hroot1 & Ho1 & Hregs1 & _ & _ & _
          & ->).
    assert (m1 = m) as -> by congruence.
    assert (o1 = o0) as -> by congruence.
    assert (regs1 = regs) as -> by congruence.
    exists (fp1, h1). simpl. by rewrite list_lookup_insert_eq.
  - intros σ1 req record Hd. rewrite Hdirect in Hd.
    destruct (reject regs pattern); [done|].
    injection Hd as <-. apply Hserve.
  - intros σ1 req record Hh.
    destruct (Router_Handle_done reject σ (RMux m) pattern h σ1 Hwf Hm Hh)
      as (m1 & o1 & regs1 & fp1 & h1 & Hroot1 & Ho1 & Hregs1 & Hfp1 & Hw
          & _ & ->).
    simpl in Hroot1, Hfp1. rewrite Ho0 in Hroot1, Hfp1. simpl in *.
    simplify_eq.
    exists h1. split; [by rewrite <- wrap_around|]. apply Hserve.
Qed.

(** X10: a call that panics has changed no ServeMux, no [Mux] and the
    list of no scope that existed; except for [With], whose group is
    already allocated when its [Use] panics, the heap of the panic is the
    heap before the call. *)
Theorem panic_is_atomic c σ msg σ' :
  wf σ ->
  exec growcap reject c σ = Panicked msg σ' ->
  servemuxes σ' = servemuxes σ /\
  muxes σ' = muxes σ /\
  (forall r, is_scope σ r -> middleware_of σ' r = middleware_of σ r) /\
  ((forall r mw, c <> CallWith r mw) -> σ' = σ).
Proof.
  intros Hwf Hp.
  assert (Hsame : σ' = σ ->
            servemuxes σ' = servemuxes σ /\
            muxes σ' = muxes σ /\
            (forall r, is_scope σ r -> middleware_of σ' r = middleware_of σ r) /\
            ((forall r mw, c <> CallWith r mw) -> σ' = σ)).
  { by intros ->. }
  destruct c as [|r p h|r p h|r mw|r prefix|r mw]; simpl in Hp.
  - done.
  - by eapply Hsame, Router_Handle_panic.
  - rewrite Router_HandleFunc_Handle in Hp.
    by eapply Hsame, Router_Handle_panic.
  - by eapply Hsame, Router_Use_panic.
  - unfold mbind, M_bind in Hp.
    destruct (Router_Group r prefix σ) as [g σ1|msg1 σ1] eqn:Hg; [done|].
    injection Hp as <- <-. by eapply Hsame, Router_Group_panic.
  - unfold mbind, M_bind in Hp. rewrite Router_With_unfold in Hp.
    pose proof (Router_Group_frame σ r "" Hwf) as Hfr.
    pose proof (Router_Group_static σ r "" Hwf) as (Hm & Hs & _).
    destruct (Router_Group r "" σ) as [g σ1|msg1 σ1] eqn:Hg; simpl in *.
    + destruct (Router_Use growcap g mw σ1) as [[] σ2|msg2 σ2] eqn:Hu;
        [done|].
      injection Hp as <- <-.
      apply Router_Use_panic in Hu as ->; [|apply Hfr].
      split_and!; try done.
      * intros r0 Hr0. apply Hfr; tauto.
      * intros Hne. by destruct (Hne r mw).
    + injection Hp as <- <-. by eapply Hsame, Router_Group_panic.
Qed.

(** X11: in every heap a program builds from nothing, no two scopes hold
    the same backing array, and every slice header lies within its
    array. *)
Theorem program_heaps_separate cs :
  let σ := heap_of (run growcap reject cs empty_heap) in
  (forall r1 r2 s1 s2 p,
     scope_slice σ r1 = Some s1 -> scope_slice σ r2 = Some s2 ->
     s_ptr s1 = Some p -> s_ptr s2 = Some p -> r1 = r2) /\
  (forall r s p,
     scope_slice σ r = Some s -> s_ptr s = Some p ->
     exists a, arrays σ !! p = Some a /\ s_len s <= s_cap s <= length a).
Proof.
  pose proof (wf_run growcap reject cs) as Hwf. simpl. split.
  - apply (wf_separate _ Hwf).
  - intros r s p Hr Hp.
    destruct (wf_slices _ Hwf r s Hr) as [Hle Hptr]. rewrite Hp in Hptr.
    destruct Hptr as (a & Ha & Hcap). exists a. split; [done|lia].
Qed.

(** X12: in every heap a program builds, two [Mux] objects have two
    ServeMuxes, and a registration through a scope of one root leaves the
    ServeMux of the other root as it is. *)
Theorem roots_independent cs m1 m2 o1 o2 :
  let σ := heap_of (run growcap reject cs empty_heap) in
  m1 <> m2 -> muxes σ !! m1 = Some o1 -> muxes σ !! m2 = Some o2 ->
  m_mux o1 <> m_mux o2 /\
  forall r pattern h,
    root_of σ r = Some m1 ->
    servemuxes (heap_of (Router_Handle reject r pattern h σ)) !! m_mux o2
    = servemuxes σ !! m_mux o2.
Proof.
  intros σ Hne H1 H2.
  destruct (run_tidy growcap reject cs empty_heap tidy_empty)
    as (Hwf & Hnd & _). fold σ in Hwf, Hnd.
  assert (Hdiff : m_mux o1 <> m_mux o2).
  { intros Heq. apply Hne.
    apply (NoDup_lookup _ m1 m2 (m_mux o1) Hnd).
    - by rewrite list_lookup_fmap, H1.
    - by rewrite list_lookup_fmap, H2, Heq. }
  split; [done|].
  intros r pattern h Hroot.
  assert (Hr : is_scope σ r).
  { unfold is_scope. destruct r as [m|g]; simpl in *.
    - destruct (muxes σ !! m); [by eexists|done].
    - destruct (groups σ !! g); [by eexists|done]. }
  destruct (Router_Handle_ok reject σ r pattern h Hwf Hr)
    as (m' & o & regs & fp & Hroot' & Ho & Hregs & _ & ->).
  assert (m' = m1) as -> by congruence.
  assert (o = o1) as -> by congruence.
  destruct (wrap h (middleware_of σ r)); [|done].
  destruct (reject regs fp); [done|].
  simpl. by rewrite list_lookup_insert_ne.
Qed.

(** X13: in every heap a program builds, every group has a prefix that is
    empty or starts with a slash (nested prefixes included), so the
    pattern a group registers has the method of the pattern it was given
    and a path that starts with a slash. *)
Theorem group_prefixes_valid cs g o :
  let σ := heap_of (run growcap reject cs empty_heap) in
  groups σ !! g = Some o ->
  valid_prefix (g_prefix o) = true /\
  forall pattern,
    (splitMethodPath (joinPattern (g_prefix o) pattern)).1
    = (splitMethodPath pattern).1 /\
    starts_with_slash (splitMethodPath (joinPattern (g_prefix o) pattern)).2
    = true.
Proof.
  intros σ Hg.
  destruct (run_tidy growcap reject cs empty_heap tidy_empty)
    as (_ & _ & Hall). fold σ in Hall.
  assert (Hv : valid_prefix (g_prefix o) = true).
  { rewrite Forall_lookup in Hall. apply (Hall g (g_fixed o)).
    by rewrite list_lookup_fmap, Hg. }
  split; [done|]. intros pattern.
  destruct (joinPattern_split (g_prefix o) pattern Hv) as [-> Hs]. done.
Qed.


(** X15: [Use] does not look inside a chain: a chain that holds a nil
    middleware is accepted by [Use], and the nil shows when the next
    handler is registered on the scope, where [Handle] panics and
    registers nothing. *)
Theorem Chain_nil_surfaces_at_Handle σ r mw pattern h :
  wf σ -> is_scope σ r -> In None mw ->
  exists σ' msg,
    Router_Use growcap r [Chain mw] σ = Done tt σ' /\
    Router_Handle reject r pattern h σ' = Panicked msg σ'.
Proof.
  intros Hwf [s Hr] Hin.
  destruct (Router_Use_ok growcap σ r s [Chain mw] Hwf Hr eq_refl)
    as (σ' & Huse & _ & Hmw & Hwf' & Hev & _).
  destruct (evolves_scope σ σ' r Hev (ex_intro _ s Hr)) as (Hr' & _).
  destruct (Router_Handle_ok reject σ' r pattern h Hwf' Hr')
    as (m & o & regs & fp & _ & _ & _ & _ & Heq).
  destruct (wrap_with_nil_panics h mw Hin) as [msg Hpanic].
  exists σ', msg. split; [done|].
  rewrite Heq, Hmw, wrap_app, wrap_singleton. simpl. by rewrite Hpanic.
Qed.

(** X16: on a scope of the heap [Group] returns exactly for the prefixes
    that are empty or start with a slash. *)
Theorem Group_succeeds_iff σ r prefix :
  wf σ -> is_scope σ r ->
  (exists g σ', Router_Group r prefix σ = Done g σ') <->
  valid_prefix prefix = true.
Proof.
  intros Hwf Hr. split.
  - intros (g & σ' & Hg).
    destruct (valid_prefix prefix) eqn:Hv; [done|].
    rewrite Router_Group_bad in Hg; [done|].
    by rewrite bad_prefix_valid, Hv.
  - intros Hv.
    destruct (Router_Group_child σ r prefix Hwf Hr) as (pfx & σ' & _ & Hg & _).
    { by rewrite bad_prefix_valid, Hv. }
    by eexists _, _.
Qed.

(** X17: the groups [Group("/")] and [Group("")] of a scope register
    every pattern under the same full pattern. *)
Theorem Group_slash_is_Group_empty σ r g1 σ1 g2 σ2 :
  wf σ -> is_scope σ r ->
  Router_Group r "/" σ = Done g1 σ1 ->
  Router_Group r "" σ = Done g2 σ2 ->
  forall pattern, full_pattern σ1 g1 pattern = full_pattern σ2 g2 pattern.
Proof.
  intros Hwf Hr H1 H2 pattern.
  destruct (step_child growcap σ r (StepGroup "/") g1 σ1 Hwf Hr H1)
    as (pfx1 & _ & Hpfx1 & _ & _ & _ & _ & _ & _ & Hfp1).
  destruct (step_child growcap σ r (StepGroup "") g2 σ2 Hwf Hr H2)
    as (pfx2 & _ & Hpfx2 & _ & _ & _ & _ & _ & _ & Hfp2).
  rewrite Hfp1, Hfp2. f_equal. simpl in Hpfx1, Hpfx2.
  destruct r as [m|g]; simpl in Hpfx1, Hpfx2.
  - destruct (muxes σ !! m); [|done].
    injection Hpfx1 as <-. injection Hpfx2 as <-.
    rewrite !joinPattern_as_described. reflexivity.
  - destruct (groups σ !! g) as [o|]; [|done].
    injection Hpfx1 as <-. injection Hpfx2 as <-.
    assert (joinPattern (g_prefix o) "/" = joinPattern (g_prefix o) "") as ->
      by (rewrite !joinPattern_as_described; reflexivity).
    done.
Qed.

(** X18: when the list of a scope holds recording middleware, the handler
    [Handle] registers records the names in list order on entry, then what
    the given handler records, then the names in reverse order on exit. *)
Theorem Handle_registers_onion σ r names pattern h σ' :
  wf σ -> is_scope σ r ->
  middleware_of σ r = recordingMiddleware <$> names ->
  Router_Handle reject r pattern h σ = Done tt σ' ->
  exists m o regs fp h',
    root_of σ r = Some m /\
    muxes σ !! m = Some o /\
    servemuxes σ !! m_mux o = Some regs /\
    full_pattern σ r pattern = Some fp /\
    servemuxes σ' !! m_mux o = Some (regs ++ [(fp, h')]) /\
    forall record,
      h' record = h (record ++ (enter <$> names)) ++ (exit <$> reverse names).
Proof.
  intros Hwf Hr Hmw Hh.
  destruct (Router_Handle_done reject σ r pattern h σ' Hwf Hr Hh)
    as (m & o & regs & fp & h' & Hroot & Ho & Hregs & Hfp & Hw & _ & ->).
  rewrite Hmw in Hw.
  destruct (wrap_recording h names) as (h1 & Hw1 & Hh1).
  assert (h' = h1) as -> by congruence.
  exists m, o, regs, fp, h1. split_and!; try done.
  simpl. apply list_lookup_insert_eq. by eapply lookup_lt_Some.
Qed.

End MoreScopeTheorems.

(** ** The further theorems at concrete inputs *)

Lemma New_is_fresh_witness :
  exists σ',
    New example_heap = Done 1 σ' /\ middleware_of σ' (RMux 1) = [] /\
    middleware_of σ' (RMux 0) = middleware_of example_heap (RMux 0).
Proof.
  destruct (New_is_fresh accept_all example_heap example_heap_wf)
    as (σ' & o & Hnew & _ & _ & _ & _ & _ & Hmw & Hsame & _).
  exists σ'. split; [exact Hnew|]. split; [exact Hmw|].
  apply Hsame. exact example_heap_root.
Defined.

Lemma Use_of_nothing_witness :
  Router_Use doubling (RMux 0) [] example_heap = Done tt example_heap.
Proof.
  exact (Use_of_nothing doubling example_heap (RMux 0) example_heap_wf example_heap_root).
Defined.

Lemma Use_accumulates_witness :
  exists σ1 σ2 σ3,
    Router_Use doubling (RMux 0) [recordingMiddleware "B"] example_heap
    = Done tt σ1 /\
    Router_Use doubling (RMux 0) [recordingMiddleware "C"] σ1 = Done tt σ2 /\
    Router_Use doubling (RMux 0)
      [recordingMiddleware "B"; recordingMiddleware "C"] example_heap
    = Done tt σ3 /\
    middleware_of σ2 (RMux 0) = middleware_of σ3 (RMux 0) /\
    servemuxes σ2 = servemuxes example_heap /\
    servemuxes σ3 = servemuxes example_heap.
Proof.
  destruct (Use_accumulates doubling example_heap (RMux 0)
              [recordingMiddleware "B"] [recordingMiddleware "C"]
              example_heap_wf example_heap_root)
    as (σ1 & σ2 & σ3 & H1 & H2 & H3 & Hmw2 & Hmw3 & _ & _ & Hsm2 & Hsm3).
  - intros [H|[]]. discriminate H.
  - intros [H|[]]. discriminate H.
  - exists σ1, σ2, σ3. split; [exact H1|]. split; [exact H2|].
    split; [exact H3|]. split; [exact (eq_trans Hmw2 (eq_sym Hmw3))|].
    split; [exact Hsm2 | exact Hsm3].
Defined.

Lemma derive_accumulates_witness :
  exists g σ',
    derive doubling [StepGroup "/api"; StepWith [recordingMiddleware "B"];
                     StepGroup "/v1"] (RMux 0) example_heap = Done g σ' /\
    middleware_of σ' g
    = middleware_of example_heap (RMux 0) ++ [recordingMiddleware "B"] /\
    full_pattern σ' g "GET /users" = Some "GET /api/v1/users".
Proof.
  eexists _, _. split; [reflexivity|].
  destruct (derive_accumulates doubling example_heap 0 (StepGroup "/api")
              [StepWith [recordingMiddleware "B"]; StepGroup "/v1"] _ _
              example_heap_wf example_heap_root eq_refl)
    as [Hmw Hfp].
  split; [exact Hmw|exact (Hfp "GET /users")].
Defined.

Lemma Handler_bypasses_middleware_witness :
  exists σ1 σ2,
    (sm ← Mux_Handler 0; ServeMux_Handle accept_all sm "/raw" test_handler)
      example_heap = Done tt σ1 /\
    Router_Handle accept_all (RMux 0) "/raw" test_handler example_heap
    = Done tt σ2 /\
    result (Mux_ServeHTTP string exact_match 0 "/raw" [] σ1)
    = Ok ["handler"] /\
    result (Mux_ServeHTTP string exact_match 0 "/raw" [] σ2)
    = Ok ["A:enter"; "handler"; "A:exit"].
Proof.
  set (σ1 := heap_of
               ((sm ← Mux_Handler 0;
                 ServeMux_Handle accept_all sm "/raw" test_handler)
                  example_heap)).
  set (σ2 := heap_of (Router_Handle accept_all (RMux 0) "/raw" test_handler
                        example_heap)).
  destruct (Handler_bypasses_middleware doubling accept_all
              string exact_match example_heap 0 "/raw" test_handler
              example_heap_wf example_heap_root)
    as (o & regs & Ho & Hregs & _ & _ & _ & _ & Hraw & Hwrapped).
  injection Ho as <-. injection Hregs as <-.
  destruct (Hwrapped σ2 "/raw" [] eq_refl) as (h' & Hh' & Hserved).
  injection Hh' as <-.
  exists σ1, σ2. split; [reflexivity|]. split; [reflexivity|].
  split; [exact (Hraw σ1 "/raw" [] eq_refl) | exact Hserved].
Defined.

Lemma panic_is_atomic_witness :
  exists σ',
    exec doubling accept_all (CallWith (RMux 0) [None]) example_heap
    = Panicked "hmux: nil middleware passed to Use" σ' /\
    servemuxes σ' = servemuxes example_heap /\
    muxes σ' = muxes example_heap.
Proof.
  eexists. split; [reflexivity|].
  destruct (panic_is_atomic doubling accept_all (CallWith (RMux 0) [None])
              example_heap _ _ example_heap_wf eq_refl)
    as (Hsm & Hm & _).
  split; [exact Hsm|exact Hm].
Defined.

Lemma roots_independent_witness :
  m_mux (MkMux 0 nil_slice) <> m_mux (MkMux 1 nil_slice) /\
  servemuxes
    (heap_of (Router_Handle accept_all (RMux 0) "/x" test_handler
                (heap_of (run doubling accept_all [CallNew; CallNew]
                            empty_heap)))) !! 1
  = Some [].
Proof.
  destruct (roots_independent doubling accept_all [CallNew; CallNew]
              0 1 (MkMux 0 nil_slice) (MkMux 1 nil_slice)
              ltac:(discriminate) eq_refl eq_refl)
    as [Hne Hkeep].
  split; [exact Hne|].
  exact (Hkeep (RMux 0) "/x" test_handler eq_refl).
Defined.

Lemma group_prefixes_valid_witness :
  valid_prefix "/api/" = true /\
  (splitMethodPath (joinPattern "/api/" "PUT things/{id}")).1 = "PUT".
Proof.
  destruct (group_prefixes_valid doubling accept_all
              [CallNew; CallGroup (RMux 0) "/api";
               CallGroup (RGroup 0) ""] 1
              (MkGroup 0 "/api/" (Slice (Some 1) 0 0)) eq_refl)
    as [Hv Hm].
  split; [exact Hv|exact (proj1 (Hm "PUT things/{id}"))].
Defined.


Lemma Chain_nil_surfaces_at_Handle_witness :
  exists σ' msg,
    Router_Use doubling (RMux 0) [Chain [recordingMiddleware "B"; None]]
      example_heap = Done tt σ' /\
    Router_Handle accept_all (RMux 0) "/x" test_handler σ' = Panicked msg σ'.
Proof.
  apply (Chain_nil_surfaces_at_Handle doubling accept_all example_heap (RMux 0)
           [recordingMiddleware "B"; None] "/x" test_handler
           example_heap_wf example_heap_root).
  right. left. reflexivity.
Defined.

Lemma Group_succeeds_iff_witness :
  (exists g σ', Router_Group (RMux 0) "/api" example_heap = Done g σ') /\
  ~ (exists g σ', Router_Group (RMux 0) " /api" example_heap = Done g σ').
Proof.
  split.
  - apply (Group_succeeds_iff example_heap (RMux 0) "/api"
             example_heap_wf example_heap_root). reflexivity.
  - intros H.
    apply (Group_succeeds_iff example_heap (RMux 0) " /api"
             example_heap_wf example_heap_root) in H.
    discriminate H.
Defined.

Lemma Group_slash_is_Group_empty_witness :
  exists g1 σ1 g2 σ2,
    Router_Group (RMux 0) "/" example_heap = Done g1 σ1 /\
    Router_Group (RMux 0) "" example_heap = Done g2 σ2 /\
    forall pattern, full_pattern σ1 g1 pattern = full_pattern σ2 g2 pattern.
Proof.
  eexists _, _, _, _. split; [reflexivity|]. split; [reflexivity|].
  exact (Group_slash_is_Group_empty doubling example_heap (RMux 0) _ _ _ _
           example_heap_wf example_heap_root eq_refl eq_refl).
Defined.

Lemma With_chain_witness :
  exists g1 σ1 g2 σ2 g3 σ3,
    Router_With doubling (RMux 0) [recordingMiddleware "B"] example_heap
    = Done g1 σ1 /\
    Router_With doubling g1 [recordingMiddleware "C"] σ1 = Done g2 σ2 /\
    Router_With doubling (RMux 0)
      [recordingMiddleware "B"; recordingMiddleware "C"] example_heap
    = Done g3 σ3 /\
    middleware_of σ2 g2 = middleware_of σ3 g3.
Proof.
  eexists _, _, _, _, _, _.
  split; [reflexivity|]. split; [reflexivity|]. split; [reflexivity|].
  destruct (With_chain doubling example_heap (RMux 0)
              [recordingMiddleware "B"] [recordingMiddleware "C"] _ _ _ _ _ _
              example_heap_wf example_heap_root eq_refl eq_refl eq_refl)
    as (H2 & H3 & _).
  exact (eq_trans H2 (eq_sym H3)).
Defined.

Lemma With_on_group_same_pattern_witness :
  exists g σ',
    Router_With doubling (RGroup 0) [recordingMiddleware "B"]
      (heap_of (Router_Group (RMux 0) "/api" example_heap)) = Done g σ' /\
    full_pattern σ' g "GET /users" = Some "GET /api/users".
Proof.
  eexists _, _. split; [reflexivity|].
  rewrite (With_on_group_same_pattern doubling
             (heap_of (Router_Group (RMux 0) "/api" example_heap)) 0
             [recordingMiddleware "B"] _ _ "GET /users"
             (proj1 (Router_Group_frame example_heap (RMux 0) "/api"
                       example_heap_wf))
             ltac:(eexists; reflexivity) eq_refl).
  reflexivity.
Defined.

Lemma Handle_registers_onion_witness :
  exists σ' h',
    Router_Handle accept_all (RMux 0) "/test" test_handler example_heap
    = Done tt σ' /\
    servemuxes σ' !! 0 = Some [("/test", h')] /\
    h' [] = ["A:enter"; "handler"; "A:exit"].
Proof.
  destruct (Handle_registers_onion accept_all example_heap (RMux 0) ["A"]
              "/test" test_handler _
              example_heap_wf example_heap_root eq_refl eq_refl)
    as (m & o & regs & fp & h' & Hroot & Ho & Hregs & Hfp & Hentry & Htrace).
  injection Hroot as <-. injection Ho as <-.
  injection Hregs as <-. injection Hfp as <-.
  eexists _, h'. split; [reflexivity|]. split; [exact Hentry|].
  exact (Htrace []).
Defined.
